(** * go-mitmproxy: the request dispatcher of [proxy/proxy.go]

    A shallow embedding of [Proxy.ServeHTTP], [Proxy.handleConnect],
    [Proxy.getUpstreamProxyUrl] and [Proxy.getUpstreamConn], and the
    properties of the dispatcher that the specification states.

    The handlers are effectful Go code: they call addon callbacks that
    mutate the flow, write to the client's [http.ResponseWriter], contact
    the origin, [return] early, [defer] clean-up work and [recover] from
    panics.  They are modelled in a small monad [M] that threads the flow
    and the stack of deferred calls, collects a trace of observable
    events, and stops on an early [return] or on a panic. *)

From Stdlib Require Import List String ZArith Lia Bool.
From Stdlib Require Import Strings.Byte.
Import ListNotations.
Open Scope string_scope.
Open Scope Z_scope.
Open Scope list_scope.

Set Implicit Arguments.

(* ================================================================== *)
(** * Data model                                                        *)
(* ================================================================== *)

Definition bytes := list byte.

(** An [io.Reader] that has not been read yet: the bytes it will yield
    and the error (if any) it reports after them instead of [io.EOF]. *)
Record Reader := mkReader { content : bytes; failure : option string }.

(** [bytes.NewReader(b)]; a nil slice reads as the empty one. *)
Definition bytes_NewReader (b : option bytes) : Reader :=
  mkReader (match b with Some l => l | None => [] end) None.

(** [http.Header], a [map[string][]string].  A nil map and an empty map
    behave alike under [range], so both are the empty list; [range]
    visits the keys in the order of the list. *)
Definition Header := list (string * list string).

Module URL.
(** [url.URL], the fields the dispatcher looks at. *)
Record t := mk { Scheme : string; Host : string; Path : string }.

(** [IsAbs]: the URL is absolute when its scheme is not empty. *)
Definition IsAbs (u : t) : bool := negb (Scheme u =? EmptyString)%string.
End URL.

Module HttpRequest.
(** [http.Request] as received by [proxy.server]. *)
Record t := mk
  { Method : string; URL : URL.t; Host : string;
    Header : Header; Body : Reader }.
End HttpRequest.

Module HttpResponse.
(** [http.Response] as returned by [client.Do]. *)
Record t := mk
  { StatusCode : Z; Header : Header; Close : bool; Body : Reader }.
End HttpResponse.

Module Options.
Record t := mk
  { Debug : Z; HttpAddr : string; SocksAddr : string;
    StreamLargeBodies : Z; SslInsecure : bool;
    CaRootPath : string; Upstream : string }.
End Options.

Module Request.
(** Modelled from the spec: the [Request] struct of flow.go, which is
    not among the sources ("request (method, URL, headers, possibly
    buffered body)").  [Body] is a Go slice: [None] is nil. *)
Record t := mk
  { Method : string; URL : URL.t; Header : Header; Body : option bytes }.
End Request.

Module Response.
(** Modelled from the spec: the [Response] struct of flow.go ("status,
    headers, body (bytes) or body_reader (stream), close"). *)
Record t := mk
  { StatusCode : Z; Header : Header; Body : option bytes;
    BodyReader : option Reader; close : bool }.

Definition setBody (r : t) (b : option bytes) : t :=
  mk (StatusCode r) (Header r) b (BodyReader r) (close r).
End Response.

Module ConnContext.
(** Modelled from the spec: the [ConnContext] struct of connection.go
    ("server_conn (lazily attached), intercept, flow_count,
    close_after_response"). *)
Record t := mk
  { Intercept : bool; FlowCount : Z; closeAfterResponse : bool;
    ServerConn : bool }.

Definition setIntercept (c : t) (b : bool) : t :=
  mk b (FlowCount c) (closeAfterResponse c) (ServerConn c).
Definition setFlowCount (c : t) (n : Z) : t :=
  mk (Intercept c) n (closeAfterResponse c) (ServerConn c).
Definition setCloseAfterResponse (c : t) (b : bool) : t :=
  mk (Intercept c) (FlowCount c) b (ServerConn c).
Definition setServerConn (c : t) (b : bool) : t :=
  mk (Intercept c) (FlowCount c) (closeAfterResponse c) b.
End ConnContext.

Module Flow.
(** Modelled from the spec: the [Flow] struct of flow.go ("request,
    response, conn_ctx, stream, use_separate_client, done").
    [Response] is a pointer: [None] is nil. *)
Record t := mk
  { Request : Request.t; Response : option Response.t;
    ConnContext : ConnContext.t; Stream : bool;
    UseSeparateClient : bool }.

Definition setRequestBody (f : t) (b : option bytes) : t :=
  mk (Request.mk (Request.Method (Request f)) (Request.URL (Request f))
                 (Request.Header (Request f)) b)
     (Response f) (ConnContext f) (Stream f) (UseSeparateClient f).
Definition setResponse (f : t) (r : option Response.t) : t :=
  mk (Request f) r (ConnContext f) (Stream f) (UseSeparateClient f).
Definition setConnContext (f : t) (c : ConnContext.t) : t :=
  mk (Request f) (Response f) c (Stream f) (UseSeparateClient f).
Definition setStream (f : t) (b : bool) : t :=
  mk (Request f) (Response f) (ConnContext f) b (UseSeparateClient f).
End Flow.

(** What a call into embedder code comes back with: a value, or a
    panic carrying its argument. *)
Inductive outcome (A : Type) : Type :=
| Ok (a : A)
| Panicked (v : string).
Arguments Panicked {A} v.

(** Calls on the client's [http.ResponseWriter]. *)
Inductive WriterOp :=
| HeaderAdd (key value : string)
| WriteHeader (statusCode : Z)
| Write (p : bytes).

Module Addon.
(** Modelled from the spec: the [Addon] interface of addon.go (§4.6),
    the operations the dispatcher calls.  A flow hook receives the
    [*Flow] and may change any field of it; a stream modifier also
    returns the replacement reader; [AccessProxyServer] receives the
    request and the response writer and performs calls on the writer. *)
Record t := mk
  { Requestheaders : Flow.t -> outcome Flow.t;
    Request : Flow.t -> outcome Flow.t;
    Responseheaders : Flow.t -> outcome Flow.t;
    Response : Flow.t -> outcome Flow.t;
    StreamRequestModifier :
      Flow.t -> option Reader -> outcome (Flow.t * option Reader);
    StreamResponseModifier :
      Flow.t -> option Reader -> outcome (Flow.t * option Reader);
    AccessProxyServer : HttpRequest.t -> outcome (list WriterOp) }.

(** [BaseAddon]: every operation is a no-op. *)
Definition BaseAddon : t :=
  mk (fun f => Ok f) (fun f => Ok f) (fun f => Ok f) (fun f => Ok f)
     (fun f r => Ok (f, r)) (fun f r => Ok (f, r)) (fun _ => Ok []).
End Addon.

(** The result of a Go call returning a [url.URL] pointer (nil is
    [None]) and an [error] (nil is [None]). *)
Definition UrlResult := (option URL.t * option string)%type.

Module Proxy.
Record t := mk
  { Opts : Options.t; Version : string; Addons : list Addon.t;
    shouldIntercept : option (HttpRequest.t -> bool);
    upstreamProxy : option (HttpRequest.t -> UrlResult) }.

(** [SetShouldInterceptRule], [SetUpstreamProxy], [AddAddon] *)
Definition SetShouldInterceptRule (p : t) (rule : HttpRequest.t -> bool) :=
  mk (Opts p) (Version p) (Addons p) (Some rule) (upstreamProxy p).
Definition SetUpstreamProxy (p : t) (fn : HttpRequest.t -> UrlResult) :=
  mk (Opts p) (Version p) (Addons p) (shouldIntercept p) (Some fn).
Definition AddAddon (p : t) (a : Addon.t) :=
  mk (Opts p) (Version p) (Addons p ++ [a]) (shouldIntercept p)
     (upstreamProxy p).
End Proxy.

(** [NewProxy]: the threshold defaults to 5 MiB; no addon, no intercept
    rule and no upstream callback yet. *)
Definition NewProxy (opts : Options.t) : Proxy.t :=
  let opts' :=
    if Options.StreamLargeBodies opts <=? 0
    then Options.mk (Options.Debug opts) (Options.HttpAddr opts)
           (Options.SocksAddr opts) (1024 * 1024 * 5)
           (Options.SslInsecure opts) (Options.CaRootPath opts)
           (Options.Upstream opts)
    else opts in
  Proxy.mk opts' "1.7.1" [] None None.

(** The two outbound clients of the forward pipeline. *)
Inductive Client :=
| SeparateClient      (* proxy.client, shared and pooled *)
| ConnClient.         (* f.ConnContext.ServerConn.client *)

(** The outbound request built by [http.NewRequestWithContext]. *)
Record ProxyReq := mkProxyReq
  { pr_Method : string; pr_URL : URL.t; pr_Header : Header;
    pr_Body : option Reader }.

(** Where a CONNECT tunnel is dialled to. *)
Inductive DialTarget :=
| DialInterceptor (host : string)           (* proxy.interceptor.dial(req) *)
| DialProxy (proxyUrl : URL.t) (host : string)  (* getProxyConn *)
| DialDirect (host : string).               (* net.Dialer.DialContext *)

Inductive Hook :=
| HRequestheaders | HRequest | HResponseheaders | HResponse.

Inductive Direction := DRequest | DResponse.

Inductive Level := LError | LWarn.

(** The observable events of one call of [ServeHTTP], in order. *)
Inductive Event :=
| EvHook (h : Hook) (i : nat) (before : Flow.t) (after : outcome Flow.t)
    (* addon number [i] ran flow hook [h] *)
| EvModifier (d : Direction) (i : nat) (before : Flow.t)
    (after : outcome (Flow.t * option Reader))
    (* addon number [i] ran its stream modifier for direction [d] *)
| EvAccessProxyServer (i : nat) (after : outcome (list WriterOp))
| EvRes (op : WriterOp)                  (* a call on [res] *)
| EvLog (l : Level) (msg : string)
| EvInitHttpServerConn                   (* f.ConnContext.initHttpServerConn() *)
| EvDo (c : Client) (r : ProxyReq) (f : Flow.t)   (* client.Do(proxyReq) *)
| EvDial (t : DialTarget)
| EvHijack                               (* res.(http.Hijacker).Hijack() *)
| EvConnWrite (p : bytes)                (* a write on the hijacked conn *)
| EvTransfer                             (* transfer(log, conn, cconn) *)
| EvClose (what : string)                (* a deferred Close() *)
| EvFinish.                              (* f.finish() *)

(* ================================================================== *)
(** * The handler monad                                                 *)
(* ================================================================== *)

(** Calls registered with [defer], most recent first. *)
Inductive Deferred :=
| DRecover            (* the recover() closure of ServeHTTP *)
| DFinish             (* f.finish() *)
| DClose (what : string)
| DResponseHooks.     (* the closure of handleConnect firing Response *)

Record St := mkSt { flow : Flow.t; defers : list Deferred }.

Definition withFlow (s : St) (f : Flow.t) : St := mkSt f (defers s).

(** How a handler body stops before its last statement. *)
Inductive Exit :=
| Returned            (* a [return] statement *)
| Panic (v : string). (* a panic unwinding the handler *)

Inductive Res (A : Type) : Type :=
| Val (a : A)
| Stop (x : Exit).
Arguments Stop {A} x.

Definition M (A : Type) : Type := St -> list Event * Res A * St.

Definition ret {A} (a : A) : M A := fun s => ([], Val a, s).

Definition bind {A B} (m : M A) (k : A -> M B) : M B := fun s =>
  let '(e1, r, s1) := m s in
  match r with
  | Val a => let '(e2, r2, s2) := k a s1 in (e1 ++ e2, r2, s2)
  | Stop x => (e1, Stop x, s1)
  end.

Declare Scope go_scope.
Delimit Scope go_scope with go.
Notation "x <- c1 ;; c2" := (bind c1 (fun x => c2))
  (at level 100, c1 at next level, right associativity) : go_scope.
Notation "c1 ;; c2" := (bind c1 (fun _ => c2))
  (at level 100, right associativity) : go_scope.
Open Scope go_scope.

Definition emit (e : Event) : M unit := fun s => ([e], Val tt, s).
Definition emits (l : list Event) : M unit := fun s => (l, Val tt, s).
Definition getFlow : M Flow.t := fun s => ([], Val (flow s), s).
(** An assignment to a field reachable from [f]. *)
Definition modifyFlow (g : Flow.t -> Flow.t) : M unit :=
  fun s => ([], Val tt, withFlow s (g (flow s))).
Definition return_ {A} : M A := fun s => ([], Stop Returned, s).
Definition panic {A} (v : string) : M A := fun s => ([], Stop (Panic v), s).
Definition defer (d : Deferred) : M unit :=
  fun s => ([], Val tt, mkSt (flow s) (d :: defers s)).

Definition nilDereference : string :=
  "invalid memory address or nil pointer dereference".

(** [f.Response], dereferenced: a nil pointer panics. *)
Definition derefResponse : M Response.t := fun s =>
  match Flow.Response (flow s) with
  | Some r => ([], Val r, s)
  | None => ([], Stop (Panic nilDereference), s)
  end.

(** An assignment to a field of [f.Response]: a nil pointer panics. *)
Definition modifyResponse (g : Response.t -> Response.t) : M unit := fun s =>
  match Flow.Response (flow s) with
  | Some r => ([], Val tt, withFlow s (Flow.setResponse (flow s) (Some (g r))))
  | None => ([], Stop (Panic nilDereference), s)
  end.

(** [addon.<hook>(f)] for addon number [i]. *)
Definition callHook (h : Hook) (i : nat) (fn : Flow.t -> outcome Flow.t)
  : M unit := fun s =>
  match fn (flow s) with
  | Ok f' => ([EvHook h i (flow s) (Ok f')], Val tt, withFlow s f')
  | Panicked v => ([EvHook h i (flow s) (Panicked v)], Stop (Panic v), s)
  end.

(** [body = addon.Stream<d>Modifier(f, body)] for addon number [i]. *)
Definition callModifier (d : Direction) (i : nat)
    (fn : Flow.t -> option Reader -> outcome (Flow.t * option Reader))
    (body : option Reader) : M (option Reader) := fun s =>
  match fn (flow s) body with
  | Ok (f', body') =>
      ([EvModifier d i (flow s) (Ok (f', body'))], Val body', withFlow s f')
  | Panicked v =>
      ([EvModifier d i (flow s) (Panicked v)], Stop (Panic v), s)
  end.

(* ================================================================== *)
(** * The world outside the dispatcher                                  *)
(* ================================================================== *)

Module Env.
(** What the dispatcher calls and does not define itself: helpers of
    the repository that are not among the sources, and Go's library.
    Each is a function giving the result of the call; an [error]
    result is [Some msg] and nil is [None].

    - [readerToBuffer r limit] (helper.go) returns the triple
      [(buf, r', err)] that the dispatcher tests;
    - [NewRequestWithContext method url] is the error of
      [http.NewRequestWithContext];
    - [Do c proxyReq] is [client.Do] on client [c];
    - [Parse] is [url.Parse];
    - [ProxyFromEnvironment u] is [http.ProxyFromEnvironment] on a
      request whose URL is [u];
    - [dial], [getProxyConn], [DialContext] are the errors of
      [proxy.interceptor.dial], [getProxyConn] and
      [net.Dialer.DialContext];
    - [Hijack] is the error of hijacking the client connection and
      [WriteString p] the error of writing [p] on it. *)
Record t := mk
  { readerToBuffer : Reader -> Z -> option bytes * option Reader * option string;
    NewRequestWithContext : string -> URL.t -> option string;
    Do : Client -> ProxyReq -> HttpResponse.t + string;
    Parse : string -> UrlResult;
    ProxyFromEnvironment : URL.t -> UrlResult;
    dial : HttpRequest.t -> option string;
    getProxyConn : URL.t -> string -> option string;
    DialContext : string -> option string;
    Hijack : option string;
    WriteString : bytes -> option string }.
End Env.

(** The outcome of one call of [ServeHTTP]: the trace, the panic that
    left the handler (if any), and the flow as the handler left it
    (if one was created). *)
Record Run := mkRun
  { events : list Event; escaped : option string; final : option Flow.t }.

Definition CRLF : string :=
  String (Ascii.ascii_of_nat 13) (String (Ascii.ascii_of_nat 10) EmptyString).

Definition connectionEstablished : bytes :=
  list_byte_of_string
    ("HTTP/1.1 200 Connection Established" ++ CRLF ++ CRLF)%string.

Definition accessDenied : bytes :=
  list_byte_of_string "此为代理服务器，不能直接发起请求".

(** Modelled from the spec: [newRequest] of flow.go, which is not among
    the sources: the request of a flow carries the method, URL and
    headers of the inbound request and, at first, no body. *)
Definition newRequest (req : HttpRequest.t) : Request.t :=
  Request.mk (HttpRequest.Method req) (HttpRequest.URL req)
             (HttpRequest.Header req) None.

(** Modelled from the spec: [newFlow] of flow.go, which is not among the
    sources, followed by the two assignments [f.Request = newRequest(req)]
    and [f.ConnContext = ...]: a fresh flow has no response and is
    neither streamed nor on the separate client. *)
Definition newFlow (req : HttpRequest.t) (cc : ConnContext.t) : Flow.t :=
  Flow.mk (newRequest req) None cc false false.

(* ================================================================== *)
(** * The dispatcher                                                    *)
(* ================================================================== *)

Section Dispatcher.

Variable env : Env.t.
Variable proxy : Proxy.t.

(** ** [reply], the closure of [ServeHTTP] *)

(** The nested [range] over [response.Header]. *)
Definition addHeaders (h : Header) : list Event :=
  flat_map (fun kv => map (fun v => EvRes (HeaderAdd (fst kv) v)) (snd kv)) h.

(** [io.Copy(res, src)] followed by [logErr] on its error; the writes of
    one copy are one [Write] event.  A nil source is not copied. *)
Definition io_Copy (src : option Reader) : list Event :=
  match src with
  | None => []
  | Some r =>
      EvRes (Write (content r)) ::
      match failure r with Some e => [EvLog LError e] | None => [] end
  end.

Definition reply (response : Response.t) (body : option Reader) : M unit :=
  emits (addHeaders (Response.Header response)) ;;
  (if Response.close response
   then emit (EvRes (HeaderAdd "Connection" "close")) else ret tt) ;;
  emit (EvRes (WriteHeader (Response.StatusCode response))) ;;
  emits (io_Copy body) ;;
  emits (io_Copy (Response.BodyReader response)) ;;
  match Response.Body response with
  | Some b => if (0 <? List.length b)%nat then emit (EvRes (Write b)) else ret tt
  | None => ret tt
  end.

(** ** The addon loops *)

(** [for _, addon := range proxy.Addons { addon.<h>(f) }] *)
Fixpoint trigger (h : Hook) (fn : Addon.t -> Flow.t -> outcome Flow.t)
    (i : nat) (addons : list Addon.t) : M unit :=
  match addons with
  | [] => ret tt
  | addon :: rest => callHook h i (fn addon) ;; trigger h fn (S i) rest
  end.

(** The [Requestheaders] and [Request] loops of the forward pipeline:
    after each addon, a non-nil [f.Response] is replied and the handler
    returns. *)
Fixpoint triggerOrReply (h : Hook) (fn : Addon.t -> Flow.t -> outcome Flow.t)
    (i : nat) (addons : list Addon.t) : M unit :=
  match addons with
  | [] => ret tt
  | addon :: rest =>
      callHook h i (fn addon) ;;
      f <- getFlow ;;
      match Flow.Response f with
      | Some response => reply response None ;; return_
      | None => triggerOrReply h fn (S i) rest
      end
  end.

(** The [Responseheaders] loop of the forward pipeline: after each
    addon, a non-nil [f.Response.Body] is replied. *)
Fixpoint triggerResponseheaders (i : nat) (addons : list Addon.t) : M unit :=
  match addons with
  | [] => ret tt
  | addon :: rest =>
      callHook HResponseheaders i (Addon.Responseheaders addon) ;;
      response <- derefResponse ;;
      match Response.Body response with
      | Some _ => reply response None ;; return_
      | None => triggerResponseheaders (S i) rest
      end
  end.

(** [for _, addon := range proxy.Addons { body = addon.Stream...Modifier(f, body) }] *)
Fixpoint modifiers (d : Direction)
    (fn : Addon.t -> Flow.t -> option Reader -> outcome (Flow.t * option Reader))
    (i : nat) (addons : list Addon.t) (body : option Reader)
  : M (option Reader) :=
  match addons with
  | [] => ret body
  | addon :: rest =>
      body' <- callModifier d i (fn addon) body ;;
      modifiers d fn (S i) rest body'
  end.

Definition limit : Z := Options.StreamLargeBodies (Proxy.Opts proxy).

(** [log.Error(err); res.WriteHeader(502); return] *)
Definition badGateway {A} (err : string) : M A :=
  emit (EvLog LError err) ;; emit (EvRes (WriteHeader 502)) ;; return_.

(** ** The forward pipeline, block by block *)

(** From the first [defer] to the end of the [Requestheaders] loop.  The
    flow the handler starts from is [newFlow req cc]. *)
Definition requestheadersStage : M unit :=
  defer DRecover ;;
  defer DFinish ;;
  modifyFlow (fun f =>
    Flow.setConnContext f
      (ConnContext.setFlowCount (Flow.ConnContext f)
         (ConnContext.FlowCount (Flow.ConnContext f) + 1))) ;;
  triggerOrReply HRequestheaders Addon.Requestheaders 0 (Proxy.Addons proxy).

(** [rawReqUrlHost], [rawReqUrlScheme]: read from [f.Request.URL] before
    any addon has run. *)
Definition rawReqUrlHost (req : HttpRequest.t) : string :=
  URL.Host (Request.URL (newRequest req)).
Definition rawReqUrlScheme (req : HttpRequest.t) : string :=
  URL.Scheme (Request.URL (newRequest req)).

(** "Read request body": the value of [reqBody] after the block. *)
Definition readRequestBody (req : HttpRequest.t) : M (option Reader) :=
  f <- getFlow ;;
  if Flow.Stream f then ret (Some (HttpRequest.Body req))
  else
    let '(reqBuf, r, err) := Env.readerToBuffer env (HttpRequest.Body req) limit in
    match err with
    | Some e => badGateway e
    | None =>
        match reqBuf with
        | None =>
            emit (EvLog LWarn "request body size >= StreamLargeBodies") ;;
            modifyFlow (fun f => Flow.setStream f true) ;;
            ret r
        | Some _ =>
            modifyFlow (fun f => Flow.setRequestBody f reqBuf) ;;
            triggerOrReply HRequest Addon.Request 0 (Proxy.Addons proxy) ;;
            f <- getFlow ;;
            ret (Some (bytes_NewReader (Request.Body (Flow.Request f))))
        end
    end.

(** Modelled from the spec: [initHttpServerConn] of connection.go, which
    is not among the sources: the per-connection server connection and
    its keep-alive client are attached on first use. *)
Definition initHttpServerConn : M unit :=
  emit EvInitHttpServerConn ;;
  modifyFlow (fun f =>
    Flow.setConnContext f (ConnContext.setServerConn (Flow.ConnContext f) true)).

(** The client chosen for the outbound request of flow [f]:
    [useSeparateClient] and the test on it. *)
Definition clientFor (req : HttpRequest.t) (f : Flow.t) : Client :=
  let useSeparateClient :=
    if Flow.UseSeparateClient f then true
    else if negb (rawReqUrlHost req =? URL.Host (Request.URL (Flow.Request f)))%string
            || negb (rawReqUrlScheme req =? URL.Scheme (Request.URL (Flow.Request f)))%string
         then true else false in
  if useSeparateClient then SeparateClient else ConnClient.

(** The outbound request built from flow [f] and body [reqBody]: method,
    URL and headers are those of [f.Request]. *)
Definition proxyReqFor (f : Flow.t) (reqBody : option Reader) : ProxyReq :=
  mkProxyReq (Request.Method (Flow.Request f)) (Request.URL (Flow.Request f))
             (Request.Header (Flow.Request f)) reqBody.

(** From [http.NewRequestWithContext] to the construction of
    [f.Response]: the origin's response. *)
Definition forward (req : HttpRequest.t) (reqBody : option Reader)
  : M HttpResponse.t :=
  f <- getFlow ;;
  match Env.NewRequestWithContext env (Request.Method (Flow.Request f))
          (Request.URL (Flow.Request f)) with
  | Some e => badGateway e
  | None =>
      let proxyReq := proxyReqFor f reqBody in
      initHttpServerConn ;;
      f <- getFlow ;;
      let c := clientFor req f in
      emit (EvDo c proxyReq f) ;;
      match Env.Do env c proxyReq with
      | inr e => badGateway e
      | inl proxyRes =>
          (if HttpResponse.Close proxyRes
           then modifyFlow (fun f =>
                  Flow.setConnContext f
                    (ConnContext.setCloseAfterResponse (Flow.ConnContext f) true))
           else ret tt) ;;
          defer (DClose "proxyRes.Body") ;;
          modifyFlow (fun f =>
            Flow.setResponse f
              (Some (Response.mk (HttpResponse.StatusCode proxyRes)
                                 (HttpResponse.Header proxyRes) None None
                                 (HttpResponse.Close proxyRes)))) ;;
          ret proxyRes
      end
  end.

(** "Read response body": the value of [resBody] after the block. *)
Definition readResponseBody (proxyRes : HttpResponse.t) : M (option Reader) :=
  f <- getFlow ;;
  if Flow.Stream f then ret (Some (HttpResponse.Body proxyRes))
  else
    let '(resBuf, r, err) :=
      Env.readerToBuffer env (HttpResponse.Body proxyRes) limit in
    match err with
    | Some e => badGateway e
    | None =>
        match resBuf with
        | None =>
            emit (EvLog LWarn "response body size >= StreamLargeBodies") ;;
            modifyFlow (fun f => Flow.setStream f true) ;;
            ret r
        | Some _ =>
            modifyResponse (fun response => Response.setBody response resBuf) ;;
            trigger HResponse Addon.Response 0 (Proxy.Addons proxy) ;;
            ret r
        end
    end.

(** The [StreamResponseModifier] loop and the final [reply]. *)
Definition sendResponse (resBody : option Reader) : M unit :=
  resBody <- modifiers DResponse Addon.StreamResponseModifier 0
               (Proxy.Addons proxy) resBody ;;
  response <- derefResponse ;;
  reply response resBody.

(** ** The forward pipeline: the body of [ServeHTTP] after its two
    early branches *)
Definition pipeline (req : HttpRequest.t) : M unit :=
  requestheadersStage ;;
  reqBody <- readRequestBody req ;;
  reqBody <- modifiers DRequest Addon.StreamRequestModifier 0
               (Proxy.Addons proxy) reqBody ;;
  proxyRes <- forward req reqBody ;;
  triggerResponseheaders 0 (Proxy.Addons proxy) ;;
  resBody <- readResponseBody proxyRes ;;
  sendResponse resBody.

(** The body up to the end of the [StreamRequestModifier] loop, and the
    rest of it. *)
Definition requestModifierStage (req : HttpRequest.t) : M (option Reader) :=
  requestheadersStage ;;
  reqBody <- readRequestBody req ;;
  modifiers DRequest Addon.StreamRequestModifier 0 (Proxy.Addons proxy) reqBody.

Definition afterForward (proxyRes : HttpResponse.t) : M unit :=
  triggerResponseheaders 0 (Proxy.Addons proxy) ;;
  resBody <- readResponseBody proxyRes ;;
  sendResponse resBody.

Definition afterRequestModifiers (req : HttpRequest.t) (reqBody : option Reader)
  : M unit :=
  proxyRes <- forward req reqBody ;;
  afterForward proxyRes.

(** The rest of the body after the [Requestheaders] loop. *)
Definition afterRequestheaders (req : HttpRequest.t) : M unit :=
  reqBody <- readRequestBody req ;;
  reqBody <- modifiers DRequest Addon.StreamRequestModifier 0
               (Proxy.Addons proxy) reqBody ;;
  afterRequestModifiers req reqBody.

(** The body up to the end of the [Responseheaders] loop, and the rest
    of it. *)
Definition responseheadersStage (req : HttpRequest.t) : M HttpResponse.t :=
  reqBody <- requestModifierStage req ;;
  proxyRes <- forward req reqBody ;;
  triggerResponseheaders 0 (Proxy.Addons proxy) ;;
  ret proxyRes.

Definition afterResponseheaders (proxyRes : HttpResponse.t) : M unit :=
  resBody <- readResponseBody proxyRes ;;
  sendResponse resBody.

(** ** Leaving a handler: the deferred calls *)

(** One deferred call, given the panic in flight (if any): its events,
    the panic in flight after it, and the flow. *)
Definition runDeferred (d : Deferred) (panicking : option string) (f : Flow.t)
  : list Event * option string * Flow.t :=
  match d with
  | DRecover =>
      match panicking with
      | Some v => ([EvLog LWarn ("Recovered: " ++ v)%string], None, f)
      | None => ([], None, f)
      end
  | DFinish => ([EvFinish], panicking, f)
  | DClose what => ([EvClose what], panicking, f)
  | DResponseHooks =>
      let '(e, r, s) :=
        trigger HResponse Addon.Response 0 (Proxy.Addons proxy) (mkSt f []) in
      (e, match r with Stop (Panic v) => Some v | _ => panicking end, flow s)
  end.

Fixpoint runDefers (ds : list Deferred) (panicking : option string) (f : Flow.t)
  : list Event * option string * Flow.t :=
  match ds with
  | [] => ([], panicking, f)
  | d :: rest =>
      let '(e1, p1, f1) := runDeferred d panicking f in
      let '(e2, p2, f2) := runDefers rest p1 f1 in
      (e1 ++ e2, p2, f2)
  end.

(** A handler body run from flow [f], then its deferred calls. *)
Definition runHandler (body : M unit) (f : Flow.t) : Run :=
  let '(e1, r, s1) := body (mkSt f []) in
  let panicking := match r with Stop (Panic v) => Some v | _ => None end in
  let '(e2, p, f2) := runDefers (defers s1) panicking (flow s1) in
  mkRun (e1 ++ e2) p (Some f2).

(** ** The upstream resolver *)

Definition getUpstreamProxyUrl (req : HttpRequest.t) : UrlResult :=
  match Proxy.upstreamProxy proxy with
  | Some fn => fn req
  | None =>
      if (0 <? String.length (Options.Upstream (Proxy.Opts proxy)))%nat
      then Env.Parse env (Options.Upstream (Proxy.Opts proxy))
      else Env.ProxyFromEnvironment env
             (URL.mk "https" (HttpRequest.Host req) EmptyString)
  end.

(** [getUpstreamConn]: the dial it performs (if it gets that far) and
    its error. *)
Definition getUpstreamConn (req : HttpRequest.t) : list Event * option string :=
  let '(proxyUrl, err) := getUpstreamProxyUrl req in
  match err with
  | Some e => ([], Some e)
  | None =>
      match proxyUrl with
      | Some u =>
          ([EvDial (DialProxy u (HttpRequest.Host req))],
           Env.getProxyConn env u (HttpRequest.Host req))
      | None =>
          ([EvDial (DialDirect (HttpRequest.Host req))],
           Env.DialContext env (HttpRequest.Host req))
      end
  end.

(** ** [handleConnect] *)

Definition shouldIntercept (req : HttpRequest.t) : bool :=
  match Proxy.shouldIntercept proxy with
  | None => true
  | Some rule => rule req
  end.

(** The flow [handleConnect] starts from: [f.ConnContext.Intercept] is
    set before anything is deferred. *)
Definition connectFlow (req : HttpRequest.t) (cc : ConnContext.t) : Flow.t :=
  newFlow req (ConnContext.setIntercept cc (shouldIntercept req)).

(** [conn, err = proxy.interceptor.dial(req)] or
    [conn, err = proxy.getUpstreamConn(req)] *)
Definition connectDial (req : HttpRequest.t) : list Event * option string :=
  if shouldIntercept req
  then ([EvDial (DialInterceptor (HttpRequest.Host req))], Env.dial env req)
  else getUpstreamConn req.

(** The synthetic response of an established tunnel. *)
Definition established200 : Response.t := Response.mk 200 [] None None false.

(** From [defer f.finish()] to the end of the [Requestheaders] loop. *)
Definition connectRequestheaders : M unit :=
  defer DFinish ;;
  trigger HRequestheaders Addon.Requestheaders 0 (Proxy.Addons proxy).

(** From the dial to [transfer]. *)
Definition connectTunnel (req : HttpRequest.t) : M unit :=
  emits (fst (connectDial req)) ;;
  match snd (connectDial req) with
  | Some e => badGateway e
  | None =>
      defer (DClose "conn") ;;
      emit EvHijack ;;
      match Env.Hijack env with
      | Some e => badGateway e
      | None =>
          defer (DClose "cconn") ;;
          emit (EvConnWrite connectionEstablished) ;;
          match Env.WriteString env connectionEstablished with
          | Some e => emit (EvLog LError e) ;; return_
          | None =>
              modifyFlow (fun f => Flow.setResponse f (Some established200)) ;;
              trigger HResponseheaders Addon.Responseheaders 0 (Proxy.Addons proxy) ;;
              defer DResponseHooks ;;
              emit EvTransfer
          end
      end
  end.

Definition handleConnectBody (req : HttpRequest.t) : M unit :=
  connectRequestheaders ;; connectTunnel req.

Definition handleConnect (req : HttpRequest.t) (cc : ConnContext.t) : Run :=
  runHandler (handleConnectBody req) (connectFlow req cc).

(** ** [ServeHTTP] *)

(** [for _, addon := range proxy.Addons { addon.AccessProxyServer(req, res) }]:
    the events, and the panic that ended the loop (if any). *)
Fixpoint accessProxyServer (req : HttpRequest.t) (i : nat) (addons : list Addon.t)
  : list Event * option string :=
  match addons with
  | [] => ([], None)
  | addon :: rest =>
      match Addon.AccessProxyServer addon req with
      | Ok ops =>
          let '(e, p) := accessProxyServer req (S i) rest in
          (EvAccessProxyServer i (Ok ops) :: map EvRes ops ++ e, p)
      | Panicked v => ([EvAccessProxyServer i (Panicked v)], Some v)
      end
  end.

Definition ServeHTTP (req : HttpRequest.t) (cc : ConnContext.t) : Run :=
  if (HttpRequest.Method req =? "CONNECT")%string then handleConnect req cc
  else if negb (URL.IsAbs (HttpRequest.URL req))
          || (URL.Host (HttpRequest.URL req) =? EmptyString)%string
  then
    if (List.length (Proxy.Addons proxy) =? 0)%nat
    then mkRun [EvRes (WriteHeader 400); EvRes (Write accessDenied)] None None
    else
      let '(e, p) := accessProxyServer req 0 (Proxy.Addons proxy) in
      mkRun e p None
  else runHandler (pipeline req) (newFlow req cc).

End Dispatcher.

(* ================================================================== *)
(** * Observations on a run                                             *)
(* ================================================================== *)

(** A request that [ServeHTTP] sends through the forward pipeline:
    not a CONNECT, and with an absolute URL that names a host. *)
Definition isForward (req : HttpRequest.t) : bool :=
  negb (HttpRequest.Method req =? "CONNECT")%string
  && (URL.IsAbs (HttpRequest.URL req)
      && negb (URL.Host (HttpRequest.URL req) =? EmptyString)%string).

(** The state a forward-pipeline handler starts in. *)
Definition start (req : HttpRequest.t) (cc : ConnContext.t) : St :=
  mkSt (newFlow req cc) [].

(** The trace of a computation run from state [s]. *)
Definition traceOf {A} (m : M A) (s : St) : list Event := fst (fst (m s)).

(** ** What the client receives *)

(** The calls made on the client's response writer, in order. *)
Definition writerOps (tr : list Event) : list WriterOp :=
  flat_map (fun e => match e with EvRes op => [op] | _ => [] end) tr.

(** The body bytes the client receives. *)
Definition clientBody (tr : list Event) : bytes :=
  flat_map (fun op => match op with Write p => p | _ => [] end) (writerOps tr).

(** What a reader yields before it ends or fails; nothing for nil. *)
Definition yield (r : option Reader) : bytes :=
  match r with Some x => content x | None => [] end.

(** The buffered body of a response, as [reply] writes it. *)
Definition buffered (response : Response.t) : bytes :=
  match Response.Body response with Some b => b | None => [] end.

(** The trace of [reply response body]. *)
Definition replyTrace (response : Response.t) (body : option Reader) : list Event :=
  addHeaders (Response.Header response)
  ++ (if Response.close response then [EvRes (HeaderAdd "Connection" "close")] else [])
  ++ [EvRes (WriteHeader (Response.StatusCode response))]
  ++ io_Copy body
  ++ io_Copy (Response.BodyReader response)
  ++ match Response.Body response with
     | Some b => if (0 <? List.length b)%nat then [EvRes (Write b)] else []
     | None => []
     end.

(** The trace of [badGateway err]. *)
Definition badGatewayTrace (err : string) : list Event :=
  [EvLog LError err; EvRes (WriteHeader 502)].

(** What the deferred [recover] logs when the body stopped with [r]. *)
Definition recoverLog {A} (r : Res A) : list Event :=
  match r with
  | Stop (Panic v) => [EvLog LWarn ("Recovered: " ++ v)%string]
  | _ => []
  end.

(** ** Which callbacks ran *)

Definition Hook_eqb (a b : Hook) : bool :=
  match a, b with
  | HRequestheaders, HRequestheaders | HRequest, HRequest
  | HResponseheaders, HResponseheaders | HResponse, HResponse => true
  | _, _ => false
  end.

(** The addons (by number) on which hook [h] was invoked, in order. *)
Definition hookCalls (h : Hook) (tr : list Event) : list nat :=
  flat_map (fun e => match e with
                     | EvHook h' i _ _ => if Hook_eqb h h' then [i] else []
                     | _ => []
                     end) tr.

(** The addons (by number) whose [AccessProxyServer] was invoked. *)
Definition accessCalls (tr : list Event) : list nat :=
  flat_map (fun e => match e with EvAccessProxyServer i _ => [i] | _ => [] end) tr.

(** What an addon's [AccessProxyServer] writes for request [req]. *)
Definition accessOps (req : HttpRequest.t) (a : Addon.t) : list WriterOp :=
  match Addon.AccessProxyServer a req with Ok ops => ops | Panicked _ => [] end.

(** An addon callback [h] that returned and left [f.Response] nil. *)
Definition passed (h : Hook) (e : Event) : Prop :=
  exists i f f', e = EvHook h i f (Ok f') /\ Flow.Response f' = None.

(** ** Kinds of events *)

Inductive Kind :=
| KHook (h : Hook) | KModifier (d : Direction) | KAccess | KRes | KLog
| KInit | KDo | KDial | KHijack | KConnWrite | KTransfer | KClose | KFinish.

Definition kind (e : Event) : Kind :=
  match e with
  | EvHook h _ _ _ => KHook h
  | EvModifier d _ _ _ => KModifier d
  | EvAccessProxyServer _ _ => KAccess
  | EvRes _ => KRes
  | EvLog _ _ => KLog
  | EvInitHttpServerConn => KInit
  | EvDo _ _ _ => KDo
  | EvDial _ => KDial
  | EvHijack => KHijack
  | EvConnWrite _ => KConnWrite
  | EvTransfer => KTransfer
  | EvClose _ => KClose
  | EvFinish => KFinish
  end.

Definition kindIn (ks : list Kind) (e : Event) : Prop := In (kind e) ks.

(** An event that contacts the origin (or the upstream proxy). *)
Definition originContact (e : Event) : Prop :=
  In (kind e) [KInit; KDo; KDial].

(** An addon callback other than [Requestheaders]. *)
Definition laterCallback (e : Event) : Prop :=
  In (kind e) [KHook HRequest; KHook HResponseheaders; KHook HResponse;
               KModifier DRequest; KModifier DResponse].

(** The kinds of events of the pipeline after the [Requestheaders] loop. *)
Definition laterKinds : list Kind :=
  [KHook HRequest; KModifier DRequest; KLog; KRes; KInit; KDo;
   KHook HResponseheaders; KHook HResponse; KModifier DResponse;
   KClose; KFinish].

(** ** The flow along a run *)

(** The flow after [f.ConnContext.FlowCount] is incremented. *)
Definition counted (f : Flow.t) : Flow.t :=
  Flow.setConnContext f
    (ConnContext.setFlowCount (Flow.ConnContext f)
       (ConnContext.FlowCount (Flow.ConnContext f) + 1)).

(** The flow after [f.ConnContext.initHttpServerConn()]. *)
Definition serverConnected (f : Flow.t) : Flow.t :=
  Flow.setConnContext f (ConnContext.setServerConn (Flow.ConnContext f) true).

(** The flow after the origin's response [proxyRes] has been received:
    [closeAfterResponse] is set if the origin closes, and [f.Response]
    is constructed. *)
Definition responded (proxyRes : HttpResponse.t) (f : Flow.t) : Flow.t :=
  let f1 :=
    if HttpResponse.Close proxyRes
    then Flow.setConnContext f
           (ConnContext.setCloseAfterResponse (Flow.ConnContext f) true)
    else f in
  Flow.setResponse f1
    (Some (Response.mk (HttpResponse.StatusCode proxyRes)
                       (HttpResponse.Header proxyRes) None None
                       (HttpResponse.Close proxyRes))).

(** The flows an addon callback shows: the one it received and the one
    it left. *)
Definition snapshots (e : Event) : list Flow.t :=
  match e with
  | EvHook _ _ b (Ok a) => [b; a]
  | EvHook _ _ b (Panicked _) => [b]
  | EvModifier _ _ b (Ok (a, _)) => [b; a]
  | EvModifier _ _ b (Panicked _) => [b]
  | _ => []
  end.

(** The values of [f.Stream] that a trace shows. *)
Definition streamsOf (tr : list Event) : list bool :=
  map Flow.Stream (flat_map snapshots tr).

(** The successive values of [f.Stream] that a run shows, ending with
    the value the handler left. *)
Definition streamTrail (r : Run) : list bool :=
  map Flow.Stream
      (flat_map snapshots (events r)
       ++ match final r with Some f => [f] | None => [] end).

(** [monotone b l]: along [b :: l], a [true] is never followed by a
    [false]. *)
Fixpoint monotone (b : bool) (l : list bool) : bool :=
  match l with
  | [] => true
  | x :: rest => implb b x && monotone x rest
  end.

(** A callback that does not clear [f.Stream]. *)
Definition keepsFlag (fn : Flow.t -> outcome Flow.t) : Prop :=
  forall f f', Flow.Stream f = true -> fn f = Ok f' -> Flow.Stream f' = true.

Definition keepsFlagM
    (fn : Flow.t -> option Reader -> outcome (Flow.t * option Reader)) : Prop :=
  forall f b f' b', Flow.Stream f = true -> fn f b = Ok (f', b') ->
                    Flow.Stream f' = true.

(** An addon none of whose callbacks clears [f.Stream]. *)
Definition keepsStream (a : Addon.t) : Prop :=
  forall f, Flow.Stream f = true ->
    (forall f', Addon.Requestheaders a f = Ok f' -> Flow.Stream f' = true) /\
    (forall f', Addon.Request a f = Ok f' -> Flow.Stream f' = true) /\
    (forall f', Addon.Responseheaders a f = Ok f' -> Flow.Stream f' = true) /\
    (forall f', Addon.Response a f = Ok f' -> Flow.Stream f' = true) /\
    (forall b f' b', Addon.StreamRequestModifier a f b = Ok (f', b') ->
                     Flow.Stream f' = true) /\
    (forall b f' b', Addon.StreamResponseModifier a f b = Ok (f', b') ->
                     Flow.Stream f' = true).

(** ** Failures on the origin's side *)

(** The origin-side failures of the forward pipeline before
    [f.Response] is constructed: the request body cannot be read; the
    outbound request cannot be constructed; the round trip ([client.Do]:
    dial, TLS, upstream proxy, send) fails. *)
Inductive OriginFailure (env : Env.t) (proxy : Proxy.t)
    (req : HttpRequest.t) (cc : ConnContext.t) : Prop :=
| RequestBodyReadFailure evs s buf r e :
    requestheadersStage proxy (start req cc) = (evs, Val tt, s) ->
    Flow.Stream (flow s) = false ->
    Env.readerToBuffer env (HttpRequest.Body req) (limit proxy) = (buf, r, Some e) ->
    OriginFailure env proxy req cc
| RequestConstructionFailure evs s reqBody e :
    requestModifierStage env proxy req (start req cc) = (evs, Val reqBody, s) ->
    Env.NewRequestWithContext env (Request.Method (Flow.Request (flow s)))
      (Request.URL (Flow.Request (flow s))) = Some e ->
    OriginFailure env proxy req cc
| RoundTripFailure evs s reqBody e :
    requestModifierStage env proxy req (start req cc) = (evs, Val reqBody, s) ->
    Env.NewRequestWithContext env (Request.Method (Flow.Request (flow s)))
      (Request.URL (Flow.Request (flow s))) = None ->
    Env.Do env (clientFor req (flow s)) (proxyReqFor (flow s) reqBody) = inr e ->
    OriginFailure env proxy req cc.

(* ================================================================== *)
(** * Properties of computations                                        *)
(* ================================================================== *)

(** A relation between the state a computation starts in, its trace,
    whether it ran to its end ([true]) or stopped, and the state it
    leaves; [sat R m] says that every run of [m] satisfies it. *)
Definition Rel : Type := St -> list Event -> bool -> St -> Prop.

Definition isVal {A} (r : Res A) : bool :=
  match r with Val _ => true | Stop _ => false end.

Definition sat {A} (R : Rel) (m : M A) : Prop :=
  forall s, R s (traceOf m s) (isVal (snd (fst (m s)))) (snd (m s)).

(** Relations that hold of the empty run and compose in sequence. *)
Record Composable (R : Rel) : Prop := mkComposable
  { comp_val : forall s, R s [] true s;
    comp_stop : forall s, R s [] false s;
    comp_seq : forall s e1 s1 e2 b s2,
        R s e1 true s1 -> R s1 e2 b s2 -> R s (e1 ++ e2) b s2 }.

Definition isClose (d : Deferred) : Prop :=
  match d with DClose _ => True | _ => False end.

(** [blockR quiet ks]: the computation emits events of the kinds [ks]
    only; it defers nothing but [Close] calls; and, when [quiet] is set,
    it writes nothing to the client if it runs to its end. *)
Definition blockR (quiet : bool) (ks : list Kind) : Rel := fun s e b s' =>
  (exists l, defers s' = l ++ defers s /\ Forall isClose l)
  /\ Forall (kindIn ks) e
  /\ (quiet = true -> b = true -> Forall (fun x => kind x <> KRes) e).

(** [stickyR]: along the flows that the computation shows, from the one
    it starts with to the one it leaves, [Stream] is never cleared. *)
Definition stickyR : Rel := fun s e _ s' =>
  monotone (Flow.Stream (flow s))
           (map Flow.Stream (flat_map snapshots e) ++ [Flow.Stream (flow s')])
  = true.

(* ================================================================== *)
(** * A concrete world, for running the dispatcher                      *)
(* ================================================================== *)

(** Modelled from the spec: [readerToBuffer] of helper.go, which is not
    among the sources ("attempt to read at most stream_large_bodies
    bytes; if the source is larger, keep the reader; if fully buffered,
    populate the body").  A source within the limit is buffered, or
    gives its read error; a larger one comes back unread, with no
    buffer. *)
Definition readerToBuffer (r : Reader) (limit : Z)
  : option bytes * option Reader * option string :=
  if Z.of_nat (List.length (content r)) <=? limit then
    match failure r with
    | Some e => (None, None, Some e)
    | None => (Some (content r), None, None)
    end
  else (None, Some r, None).

Definition text (s : string) : Reader := mkReader (list_byte_of_string s) None.

(** An origin that answers every request [200] with the body [ok];
    every dial, hijack and write succeeds; no proxy in the environment. *)
Definition sampleEnv : Env.t :=
  Env.mk readerToBuffer (fun _ _ => None)
    (fun _ _ => inl (HttpResponse.mk 200 [] false (text "ok")))
    (fun s => (Some (URL.mk "http" s EmptyString), None))
    (fun _ => (None, None))
    (fun _ => None) (fun _ _ => None) (fun _ => None) None (fun _ => None).

(** The same world with an origin that cannot be reached. *)
Definition deadEnv : Env.t :=
  Env.mk readerToBuffer (fun _ _ => None)
    (fun _ _ => inr "dial tcp: connection refused")
    (fun s => (Some (URL.mk "http" s EmptyString), None))
    (fun _ => (None, None))
    (fun _ => None) (fun _ _ => None) (fun _ => None) None (fun _ => None).

(** The same world with an environment that names the proxy
    [http://env-proxy]. *)
Definition proxiedEnv : Env.t :=
  Env.mk readerToBuffer (fun _ _ => None)
    (fun _ _ => inl (HttpResponse.mk 200 [] false (text "ok")))
    (fun s => (Some (URL.mk "http" s EmptyString), None))
    (fun _ => (Some (URL.mk "http" "env-proxy" EmptyString), None))
    (fun _ => None) (fun _ _ => None) (fun _ => None) None (fun _ => None).

(** A threshold of 4 bytes. *)
Definition sampleOpts : Options.t :=
  Options.mk 0 ":9080" EmptyString 4 false EmptyString EmptyString.

(** [NewProxy(opts)] followed by [AddAddon] for each addon. *)
Definition proxyWith (opts : Options.t) (addons : list Addon.t) : Proxy.t :=
  fold_left Proxy.AddAddon addons (NewProxy opts).

Definition sampleProxy (addons : list Addon.t) : Proxy.t :=
  proxyWith sampleOpts addons.

(** The sample proxy with the static upstream [upstream:3128]. *)
Definition upstreamProxyOf (addons : list Addon.t) : Proxy.t :=
  proxyWith
    (Options.mk 0 ":9080" EmptyString 4 false EmptyString "upstream:3128")
    addons.

(** The per-request callback of the example program. *)
Definition socksCallback (_ : HttpRequest.t) : UrlResult :=
  (Some (URL.mk "socks" "127.0.0.1:8889" EmptyString), None).

Definition sampleConn : ConnContext.t := ConnContext.mk false 0 false false.

Definition sampleRequest (method : string) (u : URL.t) (body : string)
  : HttpRequest.t :=
  HttpRequest.mk method u (URL.Host u) [] (text body).

Definition originURL : URL.t := URL.mk "http" "origin" "/".

(** A CONNECT request for [host]. *)
Definition connectRequest (host : string) : HttpRequest.t :=
  sampleRequest "CONNECT" (URL.mk EmptyString host EmptyString) EmptyString.

(** An addon that answers [418 teapot] from [Requestheaders]. *)
Definition teapot : Response.t :=
  Response.mk 418 [] (Some (list_byte_of_string "teapot")) None false.

Definition teapotAddon : Addon.t :=
  Addon.mk (fun f => Ok (Flow.setResponse f (Some teapot)))
    (fun f => Ok f) (fun f => Ok f) (fun f => Ok f)
    (fun f r => Ok (f, r)) (fun f r => Ok (f, r)) (fun _ => Ok []).

(** An addon whose [Requestheaders] panics. *)
Definition panickyAddon : Addon.t :=
  Addon.mk (fun _ => Panicked "boom")
    (fun f => Ok f) (fun f => Ok f) (fun f => Ok f)
    (fun f r => Ok (f, r)) (fun f r => Ok (f, r)) (fun _ => Ok []).

(** An addon that sets [f.Stream] in [Requestheaders]. *)
Definition streamingAddon : Addon.t :=
  Addon.mk (fun f => Ok (Flow.setStream f true))
    (fun f => Ok f) (fun f => Ok f) (fun f => Ok f)
    (fun f r => Ok (f, r)) (fun f r => Ok (f, r)) (fun _ => Ok []).

(** An addon that asks for streaming in [Requestheaders] and attaches a
    [BodyReader] yielding [B] to the origin's response in
    [Responseheaders]. *)
Definition splicerAddon : Addon.t :=
  Addon.mk (fun f => Ok (Flow.setStream f true))
    (fun f => Ok f)
    (fun f =>
       Ok (Flow.setResponse f
             (match Flow.Response f with
              | Some r =>
                  Some (Response.mk (Response.StatusCode r) (Response.Header r)
                          (Response.Body r) (Some (text "B")) (Response.close r))
              | None => None
              end)))
    (fun f => Ok f)
    (fun f r => Ok (f, r)) (fun f r => Ok (f, r)) (fun _ => Ok []).

(** An addon that answers a request aimed at the proxy itself. *)
Definition statusPageAddon : Addon.t :=
  Addon.mk (fun f => Ok f) (fun f => Ok f) (fun f => Ok f) (fun f => Ok f)
    (fun f r => Ok (f, r)) (fun f r => Ok (f, r))
    (fun _ => Ok [WriteHeader 200; Write (list_byte_of_string "up")]).

(** An addon that redirects every request to [https://mirror]. *)
Definition redirectAddon : Addon.t :=
  Addon.mk
    (fun f =>
       Ok (Flow.mk (Request.mk (Request.Method (Flow.Request f))
                      (URL.mk "https" "mirror" "/")
                      (Request.Header (Flow.Request f))
                      (Request.Body (Flow.Request f)))
                   (Flow.Response f) (Flow.ConnContext f) (Flow.Stream f)
                   (Flow.UseSeparateClient f)))
    (fun f => Ok f) (fun f => Ok f) (fun f => Ok f)
    (fun f r => Ok (f, r)) (fun f r => Ok (f, r)) (fun _ => Ok []).

(** The flow of the sample request after it has been redirected,
    buffered and given a server connection. *)
Definition redirectedFlow : Flow.t :=
  Flow.mk (Request.mk "GET" (URL.mk "https" "mirror" "/") []
                      (Some (list_byte_of_string "hi")))
          None (ConnContext.mk false 1 false true) false false.


(* ================================================================== *)
(** * The final reply                                                   *)
(* ================================================================== *)

(** The body of the forward pipeline up to the end of the "Read
    response body" block: the value of [resBody] that enters the
    [StreamResponseModifier] loop. *)
Definition responseBodyStage (env : Env.t) (proxy : Proxy.t) (req : HttpRequest.t)
  : M (option Reader) :=
  proxyRes <- responseheadersStage env proxy req ;;
  readResponseBody env proxy proxyRes.

(** An addon that attaches a [BodyReader] yielding [B] to the buffered
    response in [Response], and whose [StreamResponseModifier] replaces
    the reader it is given by one yielding [CHAIN]. *)
Definition chainAddon : Addon.t :=
  Addon.mk (fun f => Ok f) (fun f => Ok f) (fun f => Ok f)
    (fun f =>
       Ok (Flow.setResponse f
             (match Flow.Response f with
              | Some r =>
                  Some (Response.mk (Response.StatusCode r) (Response.Header r)
                          (Response.Body r) (Some (text "B")) (Response.close r))
              | None => None
              end)))
    (fun f r => Ok (f, r)) (fun f _ => Ok (f, Some (text "CHAIN")))
    (fun _ => Ok []).

(* ================================================================== *)
(** * Who writes [f.Stream]                                             *)
(* ================================================================== *)

(** The flow an addon callback received and the flow it left; a
    callback that panicked does not show what it left. *)
Definition callback (e : Event) : option (Flow.t * option Flow.t) :=
  match e with
  | EvHook _ _ b (Ok a) => Some (b, Some a)
  | EvHook _ _ b (Panicked _) => Some (b, None)
  | EvModifier _ _ b (Ok (a, _)) => Some (b, Some a)
  | EvModifier _ _ b (Panicked _) => Some (b, None)
  | _ => None
  end.

(** [handsOn b tr last]: along the trace [tr], the steps that the
    dispatcher itself makes never clear the flag.  [b] is the value of
    [f.Stream] when the previous callback returned (or when the handler
    started): if it is set, it is set in the flow the next callback
    receives; and so on, until the handler leaves with [f.Stream = last].
    What a callback does between receiving the flow and returning is
    not constrained, nor is what follows a callback that panicked. *)
Fixpoint handsOn (b : bool) (tr : list Event) (last : bool) : bool :=
  match tr with
  | [] => implb b last
  | e :: rest =>
      match callback e with
      | Some (f, after) =>
          implb b (Flow.Stream f)
          && handsOn (match after with
                      | Some f' => Flow.Stream f'
                      | None => false
                      end) rest last
      | None => handsOn b rest last
      end
  end.

(** A run in which [f.Stream] is never cleared between two addon
    callbacks, before the first or after the last: the flow of a run
    starts with the flag of [newFlow], which is not set. *)
Definition keptByDispatcher (r : Run) : bool :=
  handsOn false (events r)
    (match final r with Some f => Flow.Stream f | None => false end).

(** The same for a computation, from the flow it starts with to the
    flow it leaves. *)
Definition ownR : Rel := fun s e _ s' =>
  handsOn (Flow.Stream (flow s)) e (Flow.Stream (flow s')) = true.

(** An addon whose [Responseheaders] clears [f.Stream]. *)
Definition unstreamAddon : Addon.t :=
  Addon.mk (fun f => Ok f) (fun f => Ok f)
    (fun f => Ok (Flow.setStream f false))
    (fun f => Ok f)
    (fun f r => Ok (f, r)) (fun f r => Ok (f, r)) (fun _ => Ok []).

Unset Implicit Arguments.

(* ================================================================== *)
(** * Laws of the handler monad                                         *)
(* ================================================================== *)

Lemma bind_Val A B (m : M A) (k : A -> M B) s e a s1 :
  m s = (e, Val a, s1) ->
  bind m k s = (e ++ fst (fst (k a s1)), snd (fst (k a s1)), snd (k a s1)).
Proof.
  intros H. unfold bind. rewrite H.
  destruct (k a s1) as [[e2 r2] s2]. reflexivity.
Qed.

Lemma bind_Stop A B (m : M A) (k : A -> M B) s e x s1 :
  m s = (e, Stop x, s1) -> bind m k s = (e, Stop x, s1).
Proof. intros H. unfold bind. rewrite H. reflexivity. Qed.

Lemma bind_assoc A B C (m : M A) (f : A -> M B) (g : B -> M C) s :
  bind (bind m f) g s = bind m (fun x => bind (f x) g) s.
Proof.
  unfold bind. destruct (m s) as [[e1 r1] s1]. destruct r1 as [a|x]; [|reflexivity].
  destruct (f a s1) as [[e2 r2] s2]. destruct r2 as [b|x]; [|reflexivity].
  destruct (g b s2) as [[e3 r3] s3]. rewrite app_assoc. reflexivity.
Qed.

(* ================================================================== *)
(** * Composing properties of computations                              *)
(* ================================================================== *)

Create HintDb sat.

Section Sat.

Variable R : Rel.
Hypothesis HR : Composable R.

Lemma sat_ret A (a : A) : sat R (ret a).
Proof. intros s. apply (comp_val HR). Qed.

Lemma sat_getFlow : sat R getFlow.
Proof. intros s. apply (comp_val HR). Qed.

Lemma sat_return_ A : sat R (@return_ A).
Proof. intros s. apply (comp_stop HR). Qed.

Lemma sat_panic A v : sat R (@panic A v).
Proof. intros s. apply (comp_stop HR). Qed.

Lemma sat_derefResponse : sat R derefResponse.
Proof.
  intros s. unfold derefResponse, traceOf.
  destruct (Flow.Response (flow s)); simpl;
    [apply (comp_val HR) | apply (comp_stop HR)].
Qed.

Lemma sat_bind A B (m : M A) (k : A -> M B) :
  sat R m -> (forall a, sat R (k a)) -> sat R (bind m k).
Proof.
  intros Hm Hk s. specialize (Hm s). unfold traceOf, bind in *.
  destruct (m s) as [[e1 r1] s1]. simpl in Hm.
  destruct r1 as [a|x]; simpl; [|exact Hm].
  specialize (Hk a s1). unfold traceOf in Hk.
  destruct (k a s1) as [[e2 r2] s2]. simpl in *.
  eapply (comp_seq HR); eassumption.
Qed.

End Sat.

(** One step through the structure of a computation. *)
Ltac sat_step :=
  match goal with
  | |- sat _ _ => solve [auto with sat]
  | |- sat _ (bind _ _) => apply sat_bind; [solve [auto with sat] | | intros]
  | |- sat _ (ret _) => apply sat_ret; solve [auto with sat]
  | |- sat _ getFlow => apply sat_getFlow; solve [auto with sat]
  | |- sat _ return_ => apply sat_return_; solve [auto with sat]
  | |- sat _ derefResponse => apply sat_derefResponse; solve [auto with sat]
  | |- sat _ (match ?x with _ => _ end) => destruct x
  end.

Ltac in_list :=
  unfold kindIn; simpl;
  repeat match goal with
         | |- ?a = ?a \/ _ => left; reflexivity
         | |- ?a = ?a => reflexivity
         | |- _ \/ _ => right
         end.


(* ================================================================== *)
(** * [reply]                                                           *)
(* ================================================================== *)

Lemma reply_run response body s :
  reply response body s = (replyTrace response body, Val tt, s).
Proof.
  unfold reply, replyTrace, bind, emits, emit, ret.
  destruct (Response.close response); simpl;
    destruct (Response.Body response) as [b|]; simpl;
    try destruct (0 <? List.length b)%nat; simpl;
    rewrite ?app_nil_r; reflexivity.
Qed.

Lemma clientBody_app t1 t2 : clientBody (t1 ++ t2) = clientBody t1 ++ clientBody t2.
Proof. unfold clientBody, writerOps. rewrite !flat_map_app. reflexivity. Qed.

Lemma clientBody_addHeaders h : clientBody (addHeaders h) = [].
Proof.
  unfold addHeaders. induction h as [|[k vs] h IH]; simpl; [reflexivity|].
  rewrite clientBody_app, IH, app_nil_r.
  induction vs as [|v vs IHv]; simpl; [reflexivity|]. exact IHv.
Qed.

Lemma clientBody_io_Copy src : clientBody (io_Copy src) = yield src.
Proof.
  destruct src as [r|]; simpl; [|reflexivity].
  unfold clientBody, writerOps. simpl.
  destruct (failure r); simpl; rewrite app_nil_r; reflexivity.
Qed.

Lemma clientBody_replyTrace response body :
  clientBody (replyTrace response body)
  = yield body ++ yield (Response.BodyReader response) ++ buffered response.
Proof.
  unfold replyTrace. rewrite !clientBody_app, clientBody_addHeaders, !clientBody_io_Copy.
  simpl. replace (clientBody (if Response.close response
                    then [EvRes (HeaderAdd "Connection" "close")] else [])) with (@nil byte)
    by (destruct (Response.close response); reflexivity).
  simpl. unfold buffered. do 2 f_equal.
  destruct (Response.Body response) as [b|]; [|reflexivity].
  destruct b; simpl; [reflexivity|]. unfold clientBody. simpl. now rewrite app_nil_r.
Qed.


(* ================================================================== *)
(** * What each block emits, writes and defers                          *)
(* ================================================================== *)

Lemma blockR_Composable q ks : Composable (blockR q ks).
Proof.
  split.
  - intros s. repeat split; auto. exists []. auto.
  - intros s. repeat split; auto. exists []. auto.
  - intros s e1 s1 e2 b s2 [[l1 [D1 C1]] [K1 Q1]] [[l2 [D2 C2]] [K2 Q2]].
    repeat split.
    + exists (l2 ++ l1). rewrite D2, D1, app_assoc. split; auto.
      apply Forall_app; auto.
    + apply Forall_app; auto.
    + intros Hq Hb. apply Forall_app; auto.
Qed.
#[local] Hint Resolve blockR_Composable : sat.

(** The three parts of [blockR], for a run whose components are known. *)
Ltac block_parts :=
  unfold blockR; simpl;
  split; [ | split; [ | let Hq := fresh "Hq" in let Hb := fresh "Hb" in
                        intros Hq Hb; try discriminate Hq; try discriminate Hb ] ].

Lemma defers_same (s : St) :
  exists l, defers s = l ++ defers s /\ Forall isClose l.
Proof. exists []. split; [reflexivity | constructor]. Qed.
#[local] Hint Resolve defers_same : sat.

Lemma block_emit q ks e : In (kind e) ks -> kind e <> KRes -> sat (blockR q ks) (emit e).
Proof.
  intros Hin Hq s. unfold traceOf. block_parts.
  - apply defers_same.
  - constructor; [assumption | constructor].
  - constructor; [assumption | constructor].
Qed.

Lemma block_modifyFlow q ks g : sat (blockR q ks) (modifyFlow g).
Proof.
  intros s. unfold traceOf. block_parts.
  - apply defers_same.
  - constructor.
  - constructor.
Qed.

Lemma block_modifyResponse q ks g : sat (blockR q ks) (modifyResponse g).
Proof.
  intros s. unfold modifyResponse, traceOf.
  destruct (Flow.Response (flow s)); block_parts;
    first [apply defers_same | constructor].
Qed.

Lemma block_deferClose q ks what : sat (blockR q ks) (defer (DClose what)).
Proof.
  intros s. unfold traceOf. block_parts.
  - exists [DClose what]. split; [reflexivity | constructor; [exact I | constructor]].
  - constructor.
  - constructor.
Qed.

Lemma block_callHook q ks h i fn : In (KHook h) ks -> sat (blockR q ks) (callHook h i fn).
Proof.
  intros Hin s. unfold callHook, traceOf.
  destruct (fn (flow s)); block_parts;
    first [ apply defers_same
          | constructor; [exact Hin | constructor]
          | constructor; [simpl; discriminate | constructor] ].
Qed.

Lemma block_callModifier q ks d i fn body :
  In (KModifier d) ks -> sat (blockR q ks) (callModifier d i fn body).
Proof.
  intros Hin s. unfold callModifier, traceOf.
  destruct (fn (flow s) body) as [[f' b']|v]; block_parts;
    first [ apply defers_same
          | constructor; [exact Hin | constructor]
          | constructor; [simpl; discriminate | constructor] ].
Qed.

Lemma block_badGateway q ks A e :
  In KLog ks -> In KRes ks -> sat (blockR q ks) (@badGateway A e).
Proof.
  intros H1 H2 s. unfold traceOf. block_parts.
  - apply defers_same.
  - constructor; [exact H1 | constructor; [exact H2 | constructor]].
Qed.

Lemma kindIn_addHeaders ks h : In KRes ks -> Forall (kindIn ks) (addHeaders h).
Proof.
  intros Hin. unfold addHeaders. apply Forall_forall. intros e He.
  apply in_flat_map in He. destruct He as [kv [_ He]].
  apply in_map_iff in He. destruct He as [v [<- _]]. exact Hin.
Qed.

Lemma kindIn_io_Copy ks src :
  In KRes ks -> In KLog ks -> Forall (kindIn ks) (io_Copy src).
Proof.
  intros H1 H2. destruct src as [r|]; simpl; [|constructor].
  constructor; [exact H1|].
  destruct (failure r); [constructor; [exact H2|]|]; constructor.
Qed.

Lemma kindIn_replyTrace ks response body :
  In KRes ks -> In KLog ks -> Forall (kindIn ks) (replyTrace response body).
Proof.
  intros H1 H2. unfold replyTrace.
  apply Forall_app; split; [apply kindIn_addHeaders; assumption|].
  apply Forall_app; split.
  { destruct (Response.close response); [constructor; [exact H1|]|]; constructor. }
  apply Forall_app; split; [constructor; [exact H1 | constructor]|].
  apply Forall_app; split; [apply kindIn_io_Copy; assumption|].
  apply Forall_app; split; [apply kindIn_io_Copy; assumption|].
  destruct (Response.Body response) as [b|]; [|constructor].
  destruct (0 <? List.length b)%nat; [constructor; [exact H1|]|]; constructor.
Qed.

#[local] Hint Resolve block_modifyFlow block_modifyResponse block_deferClose
  block_callHook block_callModifier block_badGateway : sat.
#[local] Hint Extern 1 (In _ _) => solve [assumption | in_list] : sat.
#[local] Hint Extern 1 (_ <> _) => solve [simpl; discriminate] : sat.
#[local] Hint Extern 2 (sat _ (emit _)) => apply block_emit : sat.

Lemma block_reply ks response body :
  In KRes ks -> In KLog ks -> sat (blockR false ks) (reply response body).
Proof.
  intros H1 H2 s. unfold traceOf. rewrite reply_run. block_parts.
  - apply defers_same.
  - apply kindIn_replyTrace; assumption.
Qed.

Lemma block_reply_return q ks A response body :
  In KRes ks -> In KLog ks ->
  sat (blockR q ks) (reply response body ;; @return_ A).
Proof.
  intros H1 H2 s. unfold traceOf, bind. rewrite reply_run. block_parts.
  - apply defers_same.
  - rewrite app_nil_r. apply kindIn_replyTrace; assumption.
Qed.
#[local] Hint Resolve block_reply block_reply_return : sat.

Lemma block_trigger q ks h fn :
  In (KHook h) ks -> forall addons i, sat (blockR q ks) (trigger h fn i addons).
Proof.
  intros Hin addons. induction addons as [|a rest IH]; intros i; simpl;
    repeat sat_step; try apply IH.
Qed.

Lemma block_triggerOrReply q ks h fn :
  In (KHook h) ks -> In KRes ks -> In KLog ks ->
  forall addons i, sat (blockR q ks) (triggerOrReply h fn i addons).
Proof.
  intros Hin H1 H2 addons. induction addons as [|a rest IH]; intros i; simpl;
    repeat sat_step; try apply IH.
Qed.

Lemma block_triggerResponseheaders q ks :
  In (KHook HResponseheaders) ks -> In KRes ks -> In KLog ks ->
  forall addons i, sat (blockR q ks) (triggerResponseheaders i addons).
Proof.
  intros Hin H1 H2 addons. induction addons as [|a rest IH]; intros i; simpl;
    repeat sat_step; try apply IH.
Qed.

Lemma block_modifiers q ks d fn :
  In (KModifier d) ks ->
  forall addons i body, sat (blockR q ks) (modifiers d fn i addons body).
Proof.
  intros Hin addons. induction addons as [|a rest IH]; intros i body; simpl;
    repeat sat_step; try apply IH.
Qed.
#[local] Hint Resolve block_trigger block_triggerOrReply
  block_triggerResponseheaders block_modifiers : sat.

Section Blocks.

Variable env : Env.t.
Variable proxy : Proxy.t.
Variable q : bool.
Variable ks : list Kind.
Hypothesis HLog : In KLog ks.
Hypothesis HRes : In KRes ks.

Lemma block_readRequestBody req :
  In (KHook HRequest) ks -> sat (blockR q ks) (readRequestBody env proxy req).
Proof.
  intros H. unfold readRequestBody. repeat sat_step.
Qed.

Lemma block_forward req reqBody :
  In KInit ks -> In KDo ks -> sat (blockR q ks) (forward env req reqBody).
Proof.
  intros H1 H2. unfold forward, initHttpServerConn. repeat sat_step.
Qed.

Lemma block_readResponseBody proxyRes :
  In (KHook HResponse) ks -> sat (blockR q ks) (readResponseBody env proxy proxyRes).
Proof.
  intros H. unfold readResponseBody. repeat sat_step.
Qed.

End Blocks.

(* ================================================================== *)
(** * The loops that may reply                                          *)
(* ================================================================== *)

Lemma triggerOrReply_cases h fn addons : forall i s e r s',
  triggerOrReply h fn i addons s = (e, r, s') ->
  defers s' = defers s /\
  match r with
  | Val _ => Forall (passed h) e
  | Stop Returned =>
      exists pre j f f' resp,
        e = pre ++ EvHook h j f (Ok f') :: replyTrace resp None
        /\ Forall (passed h) pre /\ Flow.Response f' = Some resp /\ flow s' = f'
  | Stop (Panic v) =>
      exists pre j f, e = pre ++ [EvHook h j f (Panicked v)] /\ Forall (passed h) pre
  end.
Proof.
  induction addons as [|a rest IH]; intros i s e r s' H; simpl in H.
  - inversion H; subst. split; [reflexivity | constructor].
  - unfold bind, callHook, getFlow in H.
    destruct (fn a (flow s)) as [f'|v] eqn:Ef.
    + simpl in H. destruct (Flow.Response f') as [resp|] eqn:Er.
      * rewrite reply_run in H. simpl in H. inversion H; subst. clear H.
        split; [reflexivity|].
        exists [], i, (flow s), f', resp. rewrite app_nil_r. simpl.
        repeat split; auto.
      * destruct (triggerOrReply h fn (S i) rest (withFlow s f')) as [[e1 r1] s1] eqn:E1.
        apply IH in E1. destruct E1 as [D1 C1]. simpl in H.
        inversion H; subst. clear H. split; [exact D1|].
        assert (P : passed h (EvHook h i (flow s) (Ok f')))
          by (exists i, (flow s), f'; auto).
        destruct r as [u|[|v]].
        -- constructor; assumption.
        -- destruct C1 as (pre & j & f & f2 & resp & -> & Hp & Hr & Hf).
           exists (EvHook h i (flow s) (Ok f') :: pre), j, f, f2, resp.
           repeat split; auto.
        -- destruct C1 as (pre & j & f & -> & Hp).
           exists (EvHook h i (flow s) (Ok f') :: pre), j, f. split; auto.
    + simpl in H. inversion H; subst. split; [reflexivity|].
      exists [], i. eexists. split; [reflexivity | constructor].
Qed.

Lemma requestheadersStage_run proxy s :
  requestheadersStage proxy s
  = triggerOrReply HRequestheaders Addon.Requestheaders 0 (Proxy.Addons proxy)
      (mkSt (counted (flow s)) (DFinish :: DRecover :: defers s)).
Proof.
  unfold requestheadersStage, bind, defer, modifyFlow. simpl.
  destruct (triggerOrReply _ _ _ _ _) as [[e r] s1]. reflexivity.
Qed.

(** ** Leaving the forward pipeline *)

Lemma runDefers_closes proxy l p f :
  Forall isClose l ->
  exists e, runDefers proxy (l ++ [DFinish; DRecover]) p f
            = (e ++ EvFinish :: match p with
                                | Some v => [EvLog LWarn ("Recovered: " ++ v)%string]
                                | None => []
                                end, None, f)
            /\ Forall (kindIn [KClose]) e.
Proof.
  induction 1 as [|d l Hd Hl IH]; simpl.
  - exists []. split; [|constructor]. destruct p; reflexivity.
  - destruct d; try contradiction. simpl.
    destruct IH as [e [-> He]]. exists (EvClose what :: e). split; [reflexivity|].
    constructor; [left; reflexivity | exact He].
Qed.

Lemma ServeHTTP_forward env proxy req cc :
  isForward req = true ->
  ServeHTTP env proxy req cc = runHandler proxy (pipeline env proxy req) (newFlow req cc).
Proof.
  unfold isForward, ServeHTTP. intros H.
  apply andb_true_iff in H. destruct H as [H1 H2].
  apply andb_true_iff in H2. destruct H2 as [H2 H3].
  apply negb_true_iff in H1. rewrite H1.
  rewrite H2. apply negb_true_iff in H3. rewrite H3. reflexivity.
Qed.

Lemma runHandler_closes proxy body f e r s1 l :
  body (mkSt f []) = (e, r, s1) ->
  defers s1 = l ++ [DFinish; DRecover] ->
  Forall isClose l ->
  exists ec,
    runHandler proxy body f
    = mkRun (e ++ ec ++ EvFinish :: recoverLog r) None (Some (flow s1))
    /\ Forall (kindIn [KClose]) ec.
Proof.
  intros Hb Hd Hl. unfold runHandler. rewrite Hb, Hd.
  destruct (runDefers_closes proxy l
              (match r with Stop (Panic v) => Some v | _ => None end)
              (flow s1) Hl) as [ec [-> Hec]].
  exists ec. split; [|exact Hec]. do 2 f_equal. f_equal. f_equal.
  destruct r as [a|[|v]]; reflexivity.
Qed.

Lemma runHandler_ext proxy body1 body2 f :
  body1 (mkSt f []) = body2 (mkSt f []) ->
  runHandler proxy body1 f = runHandler proxy body2 f.
Proof. intros H. unfold runHandler. rewrite H. reflexivity. Qed.

(** ** The pipeline, cut after one of its blocks *)

Lemma pipeline_afterRequestheaders env proxy req s :
  pipeline env proxy req s
  = bind (requestheadersStage proxy) (fun _ => afterRequestheaders env proxy req) s.
Proof. reflexivity. Qed.

Lemma bind_ext A B (m : M A) (k k' : A -> M B) s :
  (forall a s1, k a s1 = k' a s1) -> bind m k s = bind m k' s.
Proof.
  intros H. unfold bind. destruct (m s) as [[e r] s1].
  destruct r; [rewrite H|]; reflexivity.
Qed.

Lemma bind_ret_l A B (a : A) (k : A -> M B) s : bind (ret a) k s = k a s.
Proof. unfold bind, ret. destruct (k a s) as [[e r] s1]. reflexivity. Qed.

Lemma pipeline_afterRequestModifiers env proxy req s :
  pipeline env proxy req s
  = bind (requestModifierStage env proxy req) (afterRequestModifiers env proxy req) s.
Proof.
  unfold requestModifierStage. rewrite bind_assoc.
  rewrite pipeline_afterRequestheaders. apply bind_ext. intros _ s1.
  rewrite bind_assoc. reflexivity.
Qed.

Lemma pipeline_afterResponseheaders env proxy req s :
  pipeline env proxy req s
  = bind (responseheadersStage env proxy req) (afterResponseheaders env proxy) s.
Proof.
  rewrite pipeline_afterRequestModifiers. unfold responseheadersStage.
  rewrite bind_assoc. apply bind_ext. intros reqBody s1.
  unfold afterRequestModifiers. rewrite bind_assoc. apply bind_ext. intros proxyRes s2.
  unfold afterForward. rewrite bind_assoc. apply bind_ext. intros _ s3.
  rewrite bind_ret_l. reflexivity.
Qed.

Section Parts.

Variable env : Env.t.
Variable proxy : Proxy.t.
Variable ks : list Kind.
Hypothesis HLog : In KLog ks.
Hypothesis HRes : In KRes ks.

Lemma block_sendResponse resBody :
  In (KModifier DResponse) ks ->
  sat (blockR false ks) (sendResponse proxy resBody).
Proof. intros H. unfold sendResponse. repeat sat_step. Qed.

Lemma block_afterResponseheaders proxyRes :
  In (KHook HResponse) ks -> In (KModifier DResponse) ks ->
  sat (blockR false ks) (afterResponseheaders env proxy proxyRes).
Proof.
  intros H1 H2. unfold afterResponseheaders.
  apply sat_bind; [auto with sat | apply block_readResponseBody; assumption|].
  intros. apply block_sendResponse; assumption.
Qed.

Lemma block_afterForward proxyRes :
  In (KHook HResponseheaders) ks -> In (KHook HResponse) ks ->
  In (KModifier DResponse) ks ->
  sat (blockR false ks) (afterForward env proxy proxyRes).
Proof.
  intros H0 H1 H2. unfold afterForward.
  apply sat_bind; [auto with sat | auto with sat |].
  intros. apply block_afterResponseheaders; assumption.
Qed.

Lemma block_afterRequestModifiers req reqBody :
  In KInit ks -> In KDo ks ->
  In (KHook HResponseheaders) ks -> In (KHook HResponse) ks ->
  In (KModifier DResponse) ks ->
  sat (blockR false ks) (afterRequestModifiers env proxy req reqBody).
Proof.
  intros. unfold afterRequestModifiers.
  apply sat_bind; [auto with sat | apply block_forward; assumption|].
  intros. apply block_afterForward; assumption.
Qed.

Lemma block_afterRequestheaders req :
  In (KHook HRequest) ks -> In (KModifier DRequest) ks ->
  In KInit ks -> In KDo ks ->
  In (KHook HResponseheaders) ks -> In (KHook HResponse) ks ->
  In (KModifier DResponse) ks ->
  sat (blockR false ks) (afterRequestheaders env proxy req).
Proof.
  intros. unfold afterRequestheaders.
  apply sat_bind; [auto with sat | apply block_readRequestBody; assumption|].
  intros. apply sat_bind; [auto with sat | auto with sat |].
  intros. apply block_afterRequestModifiers; assumption.
Qed.

End Parts.

(** The kinds of events of the deferred calls of the forward pipeline. *)
Lemma runHandler_forward proxy body f e r s1 l :
  body (mkSt f []) = (e, r, s1) ->
  defers s1 = l ++ [DFinish; DRecover] ->
  Forall isClose l ->
  exists e2,
    runHandler proxy body f = mkRun (e ++ e2) None (Some (flow s1))
    /\ Forall (kindIn [KClose; KFinish; KLog]) e2
    /\ In EvFinish e2.
Proof.
  intros Hb Hd Hl.
  destruct (runHandler_closes proxy body f e r s1 l Hb Hd Hl) as [ec [-> Hec]].
  eexists. split; [reflexivity|]. split.
  - apply Forall_app; split.
    + eapply Forall_impl; [|exact Hec]. intros x [Hx|[]]. unfold kindIn. rewrite <- Hx. in_list.
    + constructor; [in_list|].
      destruct r as [u|[|v]]; simpl; [constructor | constructor |].
      constructor; [in_list | constructor].
  - apply in_or_app. right. left. reflexivity.
Qed.

(** The whole run of a forward-pipeline body [bind m k], when [m] runs
    to its end and when it stops. *)
Lemma forward_run_after proxy ks A (m : M A) (k : A -> M unit) f e1 a s1 l1 :
  m (mkSt f []) = (e1, Val a, s1) ->
  defers s1 = l1 ++ [DFinish; DRecover] -> Forall isClose l1 ->
  sat (blockR false ks) (k a) ->
  exists e2,
    runHandler proxy (bind m k) f
    = mkRun (e1 ++ traceOf (k a) s1 ++ e2) None (Some (flow (snd (k a s1))))
    /\ Forall (kindIn ks) (traceOf (k a) s1)
    /\ Forall (kindIn [KClose; KFinish; KLog]) e2
    /\ In EvFinish e2.
Proof.
  intros Hm Hd Hl Hk.
  pose proof (bind_Val _ _ m k _ _ _ _ Hm) as Hb.
  destruct (Hk s1) as [[l2 [D2 C2]] [K2 _]].
  assert (Hd2 : defers (snd (k a s1)) = (l2 ++ l1) ++ [DFinish; DRecover])
    by (rewrite D2, Hd, app_assoc; reflexivity).
  destruct (runHandler_forward proxy (bind m k) f _ _ _ (l2 ++ l1) Hb Hd2)
    as [e2 (-> & He2 & Hf)].
  { apply Forall_app; auto. }
  exists e2. rewrite <- app_assoc. repeat split; assumption.
Qed.

Lemma forward_run_stop proxy A (m : M A) (k : A -> M unit) f e1 x s1 l1 :
  m (mkSt f []) = (e1, Stop x, s1) ->
  defers s1 = l1 ++ [DFinish; DRecover] -> Forall isClose l1 ->
  exists e2,
    runHandler proxy (bind m k) f = mkRun (e1 ++ e2) None (Some (flow s1))
    /\ Forall (kindIn [KClose; KFinish; KLog]) e2
    /\ In EvFinish e2.
Proof.
  intros Hm Hd Hl.
  pose proof (bind_Stop _ _ m k _ _ _ _ Hm) as Hb.
  exact (runHandler_forward proxy (bind m k) f _ _ _ l1 Hb Hd Hl).
Qed.

(** The pipeline from the state the handler starts in: after the
    [Requestheaders] loop the deferred calls are [f.finish()] and the
    [recover] closure. *)
Lemma bind_requestheadersStage proxy A (k : unit -> M A) s :
  bind (requestheadersStage proxy) k s
  = bind (triggerOrReply HRequestheaders Addon.Requestheaders 0 (Proxy.Addons proxy)) k
         (mkSt (counted (flow s)) (DFinish :: DRecover :: defers s)).
Proof. unfold bind. rewrite requestheadersStage_run. reflexivity. Qed.

Lemma requestModifierStage_block env proxy req cc q ks e r s :
  In KLog ks -> In KRes ks -> In (KHook HRequestheaders) ks ->
  In (KHook HRequest) ks -> In (KModifier DRequest) ks ->
  requestModifierStage env proxy req (start req cc) = (e, r, s) ->
  (exists l, defers s = l ++ [DFinish; DRecover] /\ Forall isClose l)
  /\ Forall (kindIn ks) e
  /\ (q = true -> isVal r = true -> Forall (fun x => kind x <> KRes) e).
Proof.
  intros H1 H2 H3 H4 H5 Hrun. unfold requestModifierStage in Hrun.
  rewrite bind_requestheadersStage in Hrun.
  assert (Hs : sat (blockR q ks)
            (bind (triggerOrReply HRequestheaders Addon.Requestheaders 0 (Proxy.Addons proxy))
               (fun _ => bind (readRequestBody env proxy req)
                  (fun reqBody => modifiers DRequest Addon.StreamRequestModifier 0
                                    (Proxy.Addons proxy) reqBody)))).
  { apply sat_bind; [auto with sat | auto with sat |]. intros _.
    apply sat_bind; [auto with sat | apply block_readRequestBody; assumption |].
    intros. auto with sat. }
  specialize (Hs (mkSt (counted (flow (start req cc))) (DFinish :: DRecover :: defers (start req cc)))).
  unfold traceOf in Hs. rewrite Hrun in Hs. exact Hs.
Qed.

(* ================================================================== *)
(** * Short-circuit at [Requestheaders]                                 *)
(* ================================================================== *)

Lemma passed_not_set h e i f f' response :
  passed h e -> e = EvHook h i f (Ok f') -> Flow.Response f' = Some response -> False.
Proof.
  intros (j & g & g' & -> & Hn) Heq Hs. inversion Heq; subst. congruence.
Qed.

Lemma quiet_kinds e :
  kindIn [KHook HRequestheaders; KRes; KLog; KFinish] e ->
  ~ originContact e /\ ~ laterCallback e.
Proof.
  unfold kindIn, originContact, laterCallback. simpl.
  intros H. split; intros H';
    decompose [or] H; try contradiction;
    match goal with E : _ = kind e |- _ => rewrite <- E in H' end;
    decompose [or] H'; try discriminate; contradiction.
Qed.

(** C3.  In the forward pipeline, when an addon's [Requestheaders]
    returns with [f.Response] set, the trace of the handler is: the
    [Requestheaders] calls of the addons before it (none of which set a
    response), that call, the [reply] of that response with no body
    reader, and [f.finish()].  Hence nothing contacts the origin and no
    later addon callback runs; no panic leaves the handler. *)
Theorem C3_requestheaders_short_circuit env proxy req cc i f f' response :
  isForward req = true ->
  In (EvHook HRequestheaders i f (Ok f')) (events (ServeHTTP env proxy req cc)) ->
  Flow.Response f' = Some response ->
  (exists pre,
      events (ServeHTTP env proxy req cc)
      = pre ++ EvHook HRequestheaders i f (Ok f')
            :: replyTrace response None ++ [EvFinish]
      /\ Forall (passed HRequestheaders) pre)
  /\ Forall (fun e => ~ originContact e /\ ~ laterCallback e)
            (events (ServeHTTP env proxy req cc))
  /\ escaped (ServeHTTP env proxy req cc) = None
  /\ final (ServeHTTP env proxy req cc) = Some f'.
Proof.
  intros HF Hin Hresp. rewrite (ServeHTTP_forward env proxy req cc HF) in *.
  change (pipeline env proxy req)
    with (bind (requestheadersStage proxy) (fun _ => afterRequestheaders env proxy req)) in *.
  destruct (requestheadersStage proxy (mkSt (newFlow req cc) [])) as [[e1 r1] s1] eqn:E1.
  pose proof E1 as E1'. rewrite requestheadersStage_run in E1'.
  apply triggerOrReply_cases in E1'. destruct E1' as [D1 C1]. simpl in D1.
  destruct r1 as [u|[|v]].
  - (* every addon passed: the event cannot occur later *)
    exfalso.
    destruct (forward_run_after proxy laterKinds _ (requestheadersStage proxy)
                (fun _ => afterRequestheaders env proxy req) _ _ u _ [] E1 D1)
      as [e2 (Hev & Hk & He2 & _)]; [constructor | |].
    { apply block_afterRequestheaders; in_list. }
    rewrite Hev in Hin. simpl in Hin.
    apply in_app_or in Hin. destruct Hin as [Hin|Hin].
    + rewrite Forall_forall in C1. eapply passed_not_set; eauto.
    + apply in_app_or in Hin. destruct Hin as [Hin|Hin].
      * rewrite Forall_forall in Hk. apply Hk in Hin.
        unfold kindIn in Hin. simpl in Hin. intuition discriminate.
      * rewrite Forall_forall in He2. apply He2 in Hin.
        unfold kindIn in Hin. simpl in Hin. intuition discriminate.
  - (* an addon set the response *)
    assert (Hrun : runHandler proxy
              (bind (requestheadersStage proxy) (fun _ => afterRequestheaders env proxy req))
              (newFlow req cc)
            = mkRun (e1 ++ [EvFinish]) None (Some (flow s1))).
    { unfold runHandler.
      rewrite (@bind_Stop _ _ (requestheadersStage proxy) _ _ _ _ _ E1), D1.
      reflexivity. }
    rewrite Hrun in *. simpl in *.
    destruct C1 as (pre & j & g & g' & resp & -> & Hp & Hr & Hfl).
    assert (Heq : EvHook HRequestheaders j g (Ok g') = EvHook HRequestheaders i f (Ok f')).
    { rewrite <- app_assoc in Hin. apply in_app_or in Hin. destruct Hin as [Hin|Hin].
      - exfalso. rewrite Forall_forall in Hp. eapply passed_not_set; eauto.
      - simpl in Hin. destruct Hin as [Hin|Hin]; [exact Hin|exfalso].
        apply in_app_or in Hin. destruct Hin as [Hin|Hin].
        + pose proof (@kindIn_replyTrace [KRes; KLog] resp None) as K.
          rewrite Forall_forall in K. apply K in Hin; try in_list.
          unfold kindIn in Hin. simpl in Hin. intuition discriminate.
        + simpl in Hin. intuition discriminate. }
    inversion Heq; subst j g g'. clear Heq.
    assert (resp = response) by congruence. subst resp.
    split; [|split; [|split]].
    + exists pre. rewrite <- app_assoc. simpl. split; [reflexivity | exact Hp].
    + rewrite <- app_assoc. simpl.
      apply Forall_app; split.
      * eapply Forall_impl; [|exact Hp]. intros x (a & b & c & -> & _).
        apply quiet_kinds. in_list.
      * constructor; [apply quiet_kinds; in_list|].
        apply Forall_app; split.
        -- eapply Forall_impl; [|apply (@kindIn_replyTrace [KRes; KLog]); in_list].
           intros x Hx. apply quiet_kinds.
           unfold kindIn in *. simpl in *. intuition.
        -- constructor; [apply quiet_kinds; in_list | constructor].
    + reflexivity.
    + congruence.
  - (* an addon panicked: no call returned with a response *)
    exfalso.
    assert (Hrun : events (runHandler proxy
              (bind (requestheadersStage proxy) (fun _ => afterRequestheaders env proxy req))
              (newFlow req cc))
            = e1 ++ [EvFinish; EvLog LWarn ("Recovered: " ++ v)%string]).
    { unfold runHandler.
      rewrite (@bind_Stop _ _ (requestheadersStage proxy) _ _ _ _ _ E1), D1.
      reflexivity. }
    rewrite Hrun in Hin.
    destruct C1 as (pre & j & g & -> & Hp).
    rewrite <- app_assoc in Hin. apply in_app_or in Hin. destruct Hin as [Hin|Hin].
    + rewrite Forall_forall in Hp. eapply passed_not_set; eauto.
    + simpl in Hin. intuition discriminate.
Qed.

(** C3, witness: the teapot addon answers [418] from [Requestheaders]. *)
Lemma C3_witness :
  let req := sampleRequest "GET" originURL "hi" in
  let f := counted (newFlow req sampleConn) in
  events (ServeHTTP sampleEnv (sampleProxy [teapotAddon; Addon.BaseAddon]) req sampleConn)
  = [EvHook HRequestheaders 0 f (Ok (Flow.setResponse f (Some teapot)))]
    ++ replyTrace teapot None ++ [EvFinish].
Proof.
  intros req f.
  destruct (@C3_requestheaders_short_circuit sampleEnv
              (sampleProxy [teapotAddon; Addon.BaseAddon]) req sampleConn
              0%nat f (Flow.setResponse f (Some teapot)) teapot)
    as [[pre [H _]] _].
  - reflexivity.
  - vm_compute. left. reflexivity.
  - reflexivity.
  - vm_compute. reflexivity.
Defined.

(* ================================================================== *)
(** * Forwarding to the origin                                          *)
(* ================================================================== *)

Lemma forward_run env req reqBody s :
  forward env req reqBody s =
  match Env.NewRequestWithContext env (Request.Method (Flow.Request (flow s)))
          (Request.URL (Flow.Request (flow s))) with
  | Some e => (badGatewayTrace e, Stop Returned, s)
  | None =>
      let c := clientFor req (flow s) in
      let proxyReq := proxyReqFor (flow s) reqBody in
      let s' := withFlow s (serverConnected (flow s)) in
      match Env.Do env c proxyReq with
      | inr e =>
          (EvInitHttpServerConn :: EvDo c proxyReq (flow s') :: badGatewayTrace e,
           Stop Returned, s')
      | inl proxyRes =>
          ([EvInitHttpServerConn; EvDo c proxyReq (flow s')], Val proxyRes,
           mkSt (responded proxyRes (flow s')) (DClose "proxyRes.Body" :: defers s))
      end
  end.
Proof.
  unfold forward, bind, getFlow, initHttpServerConn, emit, modifyFlow, badGateway,
    return_, defer, ret, badGatewayTrace.
  destruct (Env.NewRequestWithContext env _ _); [reflexivity|]. simpl.
  change (clientFor req (serverConnected (flow s))) with (clientFor req (flow s)).
  destruct (Env.Do env _ _) as [proxyRes|e]; [|reflexivity].
  unfold responded. destruct (HttpResponse.Close proxyRes); reflexivity.
Qed.

Lemma writerOps_app t1 t2 : writerOps (t1 ++ t2) = writerOps t1 ++ writerOps t2.
Proof. unfold writerOps. apply flat_map_app. Qed.

Lemma writerOps_quiet t : Forall (fun x => kind x <> KRes) t -> writerOps t = [].
Proof.
  induction 1 as [|x t Hx _ IH]; [reflexivity|].
  unfold writerOps in *. simpl. rewrite IH.
  destruct x; try reflexivity. exfalso. apply Hx. reflexivity.
Qed.

Lemma writerOps_deferred t :
  Forall (kindIn [KClose; KFinish; KLog]) t -> writerOps t = [].
Proof.
  intros H. apply writerOps_quiet. eapply Forall_impl; [|exact H].
  intros x Hx E. unfold kindIn in Hx. rewrite E in Hx. simpl in Hx.
  intuition discriminate.
Qed.

(** C5.  In the forward pipeline, when reading the request body fails,
    or the outbound request cannot be constructed, or the round trip to
    the origin fails, the only call the handler makes on the client's
    response writer is [WriteHeader(502)]; the flow is finished and no
    panic leaves the handler. *)
Theorem C5_origin_failure_502 env proxy req cc :
  isForward req = true ->
  OriginFailure env proxy req cc ->
  writerOps (events (ServeHTTP env proxy req cc)) = [WriteHeader 502]
  /\ In EvFinish (events (ServeHTTP env proxy req cc))
  /\ escaped (ServeHTTP env proxy req cc) = None.
Proof.
  intros HF Hfail. rewrite (ServeHTTP_forward env proxy req cc HF).
  assert (Hstop : forall A (m : M A) k evs a s e l,
             m (start req cc) = (evs, Val a, s) ->
             Forall (fun x => kind x <> KRes) evs ->
             defers s = l ++ [DFinish; DRecover] -> Forall isClose l ->
             (exists e' s', k a s = (e' ++ badGatewayTrace e, Stop Returned, s')
                            /\ writerOps e' = [] /\ defers s' = defers s) ->
             writerOps (events (runHandler proxy (bind m k) (newFlow req cc)))
             = [WriteHeader 502]
             /\ In EvFinish (events (runHandler proxy (bind m k) (newFlow req cc)))
             /\ escaped (runHandler proxy (bind m k) (newFlow req cc)) = None).
  { intros A m k evs a s e l Hm Hq Hd Hl (e' & s' & Hk & He' & Hd').
    pose proof (bind_Val _ _ m k _ _ _ _ Hm) as Hb. rewrite Hk in Hb. simpl in Hb.
    rewrite <- Hd' in Hd.
    destruct (runHandler_forward proxy (bind m k) (newFlow req cc) _ _ _ l Hb Hd Hl)
      as [e2 (-> & He2 & Hf)].
    simpl. rewrite !writerOps_app, (writerOps_quiet evs Hq), He',
      (writerOps_deferred e2 He2).
    repeat split. apply in_or_app. right. exact Hf. }
  destruct Hfail as [evs s buf r e Hst Hstream Hrd
                    | evs s reqBody e Hst Hnew
                    | evs s reqBody e Hst Hnew Hdo].
  - (* the request body cannot be read *)
    rewrite (runHandler_ext proxy _ _ _ (pipeline_afterRequestheaders env proxy req _)).
    pose proof Hst as Hst'. unfold start in Hst'. rewrite requestheadersStage_run in Hst'.
    pose proof (block_triggerOrReply true [KHook HRequestheaders; KRes; KLog]
                  HRequestheaders Addon.Requestheaders
                  ltac:(in_list) ltac:(in_list) ltac:(in_list) (Proxy.Addons proxy) 0%nat
                  (mkSt (counted (newFlow req cc)) [DFinish; DRecover])) as Hb.
    unfold traceOf in Hb. simpl in Hst'. rewrite Hst' in Hb.
    destruct Hb as [[l [Dl Cl]] [_ Hq]].
    apply (Hstop _ _ _ evs tt s e l Hst (Hq eq_refl eq_refl) Dl Cl).
    exists [], s. split; [|split; reflexivity].
    unfold afterRequestheaders, readRequestBody.
    unfold bind at 1. unfold bind at 1. unfold getFlow. simpl.
    rewrite Hstream, Hrd. reflexivity.
  - (* the outbound request cannot be constructed *)
    rewrite (runHandler_ext proxy _ _ _ (pipeline_afterRequestModifiers env proxy req _)).
    destruct (requestModifierStage_block env proxy req cc true
                [KLog; KRes; KHook HRequestheaders; KHook HRequest; KModifier DRequest]
                _ _ _ ltac:(in_list) ltac:(in_list) ltac:(in_list) ltac:(in_list)
                ltac:(in_list) Hst) as [[l [Dl Cl]] [_ Hq]].
    apply (Hstop _ _ _ evs reqBody s e l Hst (Hq eq_refl eq_refl) Dl Cl).
    exists [], s. split; [|split; reflexivity].
    unfold afterRequestModifiers, bind. rewrite forward_run, Hnew. reflexivity.
  - (* the round trip fails *)
    rewrite (runHandler_ext proxy _ _ _ (pipeline_afterRequestModifiers env proxy req _)).
    destruct (requestModifierStage_block env proxy req cc true
                [KLog; KRes; KHook HRequestheaders; KHook HRequest; KModifier DRequest]
                _ _ _ ltac:(in_list) ltac:(in_list) ltac:(in_list) ltac:(in_list)
                ltac:(in_list) Hst) as [[l [Dl Cl]] [_ Hq]].
    apply (Hstop _ _ _ evs reqBody s e l Hst (Hq eq_refl eq_refl) Dl Cl).
    exists [EvInitHttpServerConn;
            EvDo (clientFor req (flow s)) (proxyReqFor (flow s) reqBody)
                 (serverConnected (flow s))],
           (withFlow s (serverConnected (flow s))).
    split; [|split; reflexivity].
    unfold afterRequestModifiers, bind. rewrite forward_run, Hnew. simpl.
    rewrite Hdo. reflexivity.
Qed.

(** C5, witness: an origin that refuses the connection. *)
Lemma C5_witness :
  let req := sampleRequest "GET" originURL "hi" in
  let proxy := sampleProxy [Addon.BaseAddon] in
  isForward req = true
  /\ OriginFailure deadEnv proxy req sampleConn
  /\ writerOps (events (ServeHTTP deadEnv proxy req sampleConn)) = [WriteHeader 502]
  /\ In EvFinish (events (ServeHTTP deadEnv proxy req sampleConn)).
Proof.
  intros req proxy.
  assert (HF : isForward req = true) by reflexivity.
  assert (Hfail : OriginFailure deadEnv proxy req sampleConn).
  { eapply RoundTripFailure; [vm_compute; reflexivity | reflexivity | reflexivity]. }
  split; [exact HF|]. split; [exact Hfail|].
  destruct (C5_origin_failure_502 deadEnv proxy req sampleConn HF Hfail) as (H1 & H2 & _).
  split; assumption.
Defined.

(* ================================================================== *)
(** * The choice of the outbound client                                 *)
(* ================================================================== *)

Lemma clientFor_spec req f :
  (clientFor req f = SeparateClient <->
     Flow.UseSeparateClient f = true
     \/ URL.Host (Request.URL (Flow.Request f)) <> URL.Host (HttpRequest.URL req)
     \/ URL.Scheme (Request.URL (Flow.Request f)) <> URL.Scheme (HttpRequest.URL req))
  /\ (clientFor req f = ConnClient <->
     Flow.UseSeparateClient f = false
     /\ URL.Host (Request.URL (Flow.Request f)) = URL.Host (HttpRequest.URL req)
     /\ URL.Scheme (Request.URL (Flow.Request f)) = URL.Scheme (HttpRequest.URL req)).
Proof.
  unfold clientFor, rawReqUrlHost, rawReqUrlScheme. simpl.
  destruct (Flow.UseSeparateClient f).
  - split; split; auto; try discriminate. intros [H _]. discriminate.
  - destruct (String.eqb_spec (URL.Host (HttpRequest.URL req))
                (URL.Host (Request.URL (Flow.Request f)))) as [Hh|Hh];
    destruct (String.eqb_spec (URL.Scheme (HttpRequest.URL req))
                (URL.Scheme (Request.URL (Flow.Request f)))) as [Hs|Hs];
    simpl; split; split; auto; try discriminate;
      try (intros [H|[H|H]]; congruence);
      try (intros (_ & H1 & H2); congruence).
Qed.

Lemma afterRequestModifiers_EvDo env proxy req reqBody s c pr f :
  In (EvDo c pr f) (traceOf (afterRequestModifiers env proxy req reqBody) s) ->
  c = clientFor req (flow s) /\ pr = proxyReqFor (flow s) reqBody
  /\ f = serverConnected (flow s).
Proof.
  unfold afterRequestModifiers, traceOf, bind. rewrite forward_run.
  destruct (Env.NewRequestWithContext env _ _) as [e|].
  { simpl. intros [H|[H|[]]]; discriminate. }
  simpl. destruct (Env.Do env _ _) as [proxyRes|e].
  - pose proof (block_afterForward env proxy
                  [KLog; KRes; KHook HResponseheaders; KHook HResponse; KModifier DResponse]
                  ltac:(in_list) ltac:(in_list) proxyRes
                  ltac:(in_list) ltac:(in_list) ltac:(in_list)) as Hb.
    match goal with |- context [afterForward env proxy proxyRes ?s4] =>
      specialize (Hb s4); unfold traceOf in Hb;
      destruct (afterForward env proxy proxyRes s4) as [[e2 r2] s5] end.
    simpl in *. destruct Hb as [_ [Hk _]].
    intros [H|[H|H]]; [discriminate | inversion H; auto |].
    rewrite Forall_forall in Hk. apply Hk in H.
    unfold kindIn in H. simpl in H. intuition discriminate.
  - simpl. intros [H|[H|[H|[H|[]]]]]; try discriminate. inversion H. auto.
Qed.

(** C8.  In the forward pipeline, the outbound request of a flow is sent
    with [proxy.client], the separate pooled client, exactly when
    [f.UseSeparateClient] is set or the host or the scheme of
    [f.Request.URL] differs from that of the request as it was
    received; it is sent with the client of the connection's
    [ServerConn] exactly when none of these holds.  The request sent
    carries the URL of [f.Request]. *)
Theorem C8_client_selection env proxy req cc c pr f :
  isForward req = true ->
  In (EvDo c pr f) (events (ServeHTTP env proxy req cc)) ->
  (c = SeparateClient <->
     Flow.UseSeparateClient f = true
     \/ URL.Host (Request.URL (Flow.Request f)) <> URL.Host (HttpRequest.URL req)
     \/ URL.Scheme (Request.URL (Flow.Request f)) <> URL.Scheme (HttpRequest.URL req))
  /\ (c = ConnClient <->
     Flow.UseSeparateClient f = false
     /\ URL.Host (Request.URL (Flow.Request f)) = URL.Host (HttpRequest.URL req)
     /\ URL.Scheme (Request.URL (Flow.Request f)) = URL.Scheme (HttpRequest.URL req))
  /\ pr_URL pr = Request.URL (Flow.Request f)
  /\ pr_Method pr = Request.Method (Flow.Request f).
Proof.
  intros HF. rewrite (ServeHTTP_forward env proxy req cc HF).
  rewrite (runHandler_ext proxy _ _ _ (pipeline_afterRequestModifiers env proxy req _)).
  destruct (requestModifierStage env proxy req (start req cc)) as [[e1 r1] s1] eqn:Hst.
  destruct (requestModifierStage_block env proxy req cc false
              [KLog; KRes; KHook HRequestheaders; KHook HRequest; KModifier DRequest]
              _ _ _ ltac:(in_list) ltac:(in_list) ltac:(in_list) ltac:(in_list)
              ltac:(in_list) Hst) as [[l [Dl Cl]] [Hk1 _]].
  assert (Hno1 : ~ In (EvDo c pr f) e1).
  { intros H. rewrite Forall_forall in Hk1. apply Hk1 in H.
    unfold kindIn in H. simpl in H. intuition discriminate. }
  assert (Hno2 : forall e2, Forall (kindIn [KClose; KFinish; KLog]) e2 ->
                            ~ In (EvDo c pr f) e2).
  { intros e2 H2 H. rewrite Forall_forall in H2. apply H2 in H.
    unfold kindIn in H. simpl in H. intuition discriminate. }
  destruct r1 as [reqBody|x].
  - destruct (forward_run_after proxy
                [KLog; KRes; KInit; KDo; KHook HResponseheaders; KHook HResponse;
                 KModifier DResponse]
                _ (requestModifierStage env proxy req)
                (afterRequestModifiers env proxy req) _ _ reqBody _ l Hst Dl Cl)
      as [e2 (-> & _ & He2 & _)].
    { apply block_afterRequestModifiers; in_list. }
    simpl. intros Hin.
    apply in_app_or in Hin. destruct Hin as [Hin|Hin]; [contradiction|].
    apply in_app_or in Hin. destruct Hin as [Hin|Hin]; [|exfalso; eapply Hno2; eauto].
    apply afterRequestModifiers_EvDo in Hin. destruct Hin as (-> & -> & ->).
    destruct (clientFor_spec req (flow s1)) as [H1 H2].
    repeat split; try apply H1; try apply H2; auto.
  - destruct (forward_run_stop proxy _ (requestModifierStage env proxy req)
                (afterRequestModifiers env proxy req) _ _ x _ l Hst Dl Cl)
      as [e2 (-> & He2 & _)].
    simpl. intros Hin. exfalso.
    apply in_app_or in Hin. destruct Hin as [Hin|Hin]; [contradiction|].
    eapply Hno2; eauto.
Qed.

(** C8, witness: an addon redirects the request to another host, and
    the separate client sends it. *)
Lemma C8_witness :
  let req := sampleRequest "GET" originURL "hi" in
  let pr := proxyReqFor redirectedFlow (Some (text "hi")) in
  isForward req = true
  /\ In (EvDo SeparateClient pr redirectedFlow)
        (events (ServeHTTP sampleEnv (sampleProxy [redirectAddon]) req sampleConn))
  /\ URL.Host (Request.URL (Flow.Request redirectedFlow))
     <> URL.Host (HttpRequest.URL req).
Proof.
  intros req pr.
  assert (HF : isForward req = true) by reflexivity.
  assert (Hin : In (EvDo SeparateClient pr redirectedFlow)
                   (events (ServeHTTP sampleEnv (sampleProxy [redirectAddon]) req sampleConn))).
  { vm_compute. do 4 right. left. reflexivity. }
  split; [exact HF|]. split; [exact Hin|].
  destruct (C8_client_selection sampleEnv (sampleProxy [redirectAddon]) req sampleConn
              SeparateClient pr redirectedFlow HF Hin) as [[H _] _].
  destruct (H eq_refl) as [H'|[H'|H']]; [discriminate | exact H' | discriminate].
Defined.

(* ================================================================== *)
(** * [f.Stream] is never cleared                                       *)
(* ================================================================== *)

Lemma monotone_weaken a b l :
  implb a b = true -> monotone b l = true -> monotone a l = true.
Proof.
  destruct l as [|x l]; simpl; [reflexivity|].
  intros Hab H. apply andb_true_iff in H. destruct H as [Hbx Hl].
  rewrite Hl, andb_true_r. destruct a, b, x; auto.
Qed.

Lemma monotone_app l1 : forall a b l2,
  monotone a (l1 ++ [b]) = true -> monotone b l2 = true ->
  monotone a (l1 ++ l2) = true.
Proof.
  induction l1 as [|x l1 IH]; intros a b l2 H1 H2; simpl in *.
  - rewrite andb_true_r in H1. eapply monotone_weaken; eassumption.
  - apply andb_true_iff in H1. destruct H1 as [Hax H1].
    rewrite Hax. simpl. eapply IH; eassumption.
Qed.

Lemma monotone_true l : monotone true l = true -> Forall (fun b => b = true) l.
Proof.
  induction l as [|x l IH]; simpl; intros H; constructor;
    apply andb_true_iff in H; destruct H as [Hx Hl]; destruct x; try discriminate;
    auto.
Qed.

Lemma monotone_sticks l1 : forall a l2,
  monotone a (l1 ++ true :: l2) = true -> Forall (fun b => b = true) l2.
Proof.
  induction l1 as [|x l1 IH]; intros a l2 H; simpl in H;
    apply andb_true_iff in H; destruct H as [_ H].
  - apply monotone_true. exact H.
  - eapply IH. exact H.
Qed.

Lemma streamsOf_app t1 t2 : streamsOf (t1 ++ t2) = streamsOf t1 ++ streamsOf t2.
Proof. unfold streamsOf. rewrite flat_map_app, map_app. reflexivity. Qed.

Lemma streamsOf_plain t :
  Forall (fun e => snapshots e = []) t -> streamsOf t = [].
Proof.
  unfold streamsOf. induction 1 as [|x t Hx _ IH]; simpl; [reflexivity|].
  rewrite Hx, map_app, IH. reflexivity.
Qed.

Lemma stickyR_Composable : Composable stickyR.
Proof.
  split; unfold stickyR; simpl.
  - intros s. rewrite andb_true_r. destruct (Flow.Stream (flow s)); reflexivity.
  - intros s. rewrite andb_true_r. destruct (Flow.Stream (flow s)); reflexivity.
  - intros s e1 s1 e2 b s2 H1 H2.
    rewrite flat_map_app, map_app, <- app_assoc.
    eapply monotone_app; eassumption.
Qed.
#[local] Hint Resolve stickyR_Composable : sat.

Lemma sticky_emits l :
  Forall (fun e => snapshots e = []) l -> sat stickyR (emits l).
Proof.
  intros H s. unfold stickyR, traceOf. simpl.
  fold (streamsOf l). rewrite (streamsOf_plain l H). simpl.
  rewrite andb_true_r. destruct (Flow.Stream (flow s)); reflexivity.
Qed.

Lemma sticky_emit e : snapshots e = [] -> sat stickyR (emit e).
Proof.
  intros H. apply (sticky_emits [e]). constructor; [exact H | constructor].
Qed.

Lemma sticky_defer d : sat stickyR (defer d).
Proof.
  intros s. unfold stickyR, traceOf. simpl. rewrite andb_true_r.
  destruct (Flow.Stream (flow s)); reflexivity.
Qed.

Lemma sticky_modifyFlow g :
  (forall f, Flow.Stream f = true -> Flow.Stream (g f) = true) ->
  sat stickyR (modifyFlow g).
Proof.
  intros H s. unfold stickyR, traceOf. simpl. rewrite andb_true_r.
  destruct (Flow.Stream (flow s)) eqn:E; [|reflexivity]. rewrite (H _ E). reflexivity.
Qed.

Lemma sticky_modifyResponse g : sat stickyR (modifyResponse g).
Proof.
  intros s. unfold stickyR, modifyResponse, traceOf.
  destruct (Flow.Response (flow s)); simpl; rewrite andb_true_r;
    destruct (Flow.Stream (flow s)); reflexivity.
Qed.

Lemma sticky_callHook h i fn : keepsFlag fn -> sat stickyR (callHook h i fn).
Proof.
  intros H s. unfold stickyR, callHook, traceOf.
  destruct (fn (flow s)) as [f'|v] eqn:E; simpl.
  - destruct (Flow.Stream (flow s)) eqn:Es; simpl.
    + rewrite (H _ _ Es E). reflexivity.
    + destruct (Flow.Stream f'); reflexivity.
  - destruct (Flow.Stream (flow s)); reflexivity.
Qed.

Lemma sticky_callModifier d i fn body :
  keepsFlagM fn -> sat stickyR (callModifier d i fn body).
Proof.
  intros H s. unfold stickyR, callModifier, traceOf.
  destruct (fn (flow s) body) as [[f' b']|v] eqn:E; simpl.
  - destruct (Flow.Stream (flow s)) eqn:Es; simpl.
    + rewrite (H _ _ _ _ Es E). reflexivity.
    + destruct (Flow.Stream f'); reflexivity.
  - destruct (Flow.Stream (flow s)); reflexivity.
Qed.

Lemma plain_kinds ks t :
  Forall (kindIn ks) t ->
  (forall h, ~ In (KHook h) ks) -> (forall d, ~ In (KModifier d) ks) ->
  Forall (fun e => snapshots e = []) t.
Proof.
  intros H Hh Hm. eapply Forall_impl; [|exact H].
  intros e He. unfold kindIn in He.
  destruct e; try reflexivity; simpl in He; exfalso; [eapply Hh | eapply Hm]; eassumption.
Qed.

Lemma plain_replyTrace response body :
  Forall (fun e => snapshots e = []) (replyTrace response body).
Proof.
  apply (plain_kinds [KRes; KLog]).
  - apply kindIn_replyTrace; in_list.
  - intros h H. simpl in H. intuition discriminate.
  - intros d H. simpl in H. intuition discriminate.
Qed.

Lemma sticky_reply response body : sat stickyR (reply response body).
Proof.
  intros s. pose proof (sticky_emits _ (plain_replyTrace response body) s) as H.
  unfold stickyR, traceOf in *. rewrite reply_run. exact H.
Qed.

Lemma sticky_badGateway A e : sat stickyR (@badGateway A e).
Proof.
  unfold badGateway.
  apply sat_bind; [auto with sat | apply sticky_emit; reflexivity|]. intros _.
  apply sat_bind; [auto with sat | apply sticky_emit; reflexivity|]. intros _.
  apply sat_return_. auto with sat.
Qed.
#[local] Hint Resolve sticky_defer sticky_modifyResponse sticky_reply
  sticky_badGateway sticky_callHook sticky_callModifier : sat.
#[local] Hint Extern 2 (sat stickyR (emit _)) => apply sticky_emit; reflexivity : sat.
#[local] Hint Extern 2 (sat stickyR (modifyFlow _)) =>
  apply sticky_modifyFlow; intros; assumption : sat.
#[local] Hint Extern 2 (sat stickyR (modifyFlow (fun f => Flow.setStream f true))) =>
  apply sticky_modifyFlow; intros; reflexivity : sat.

Lemma monotone_last l : forall x, monotone true (l ++ [x]) = true -> x = true.
Proof.
  intros x H. apply monotone_true in H. rewrite Forall_forall in H.
  apply H. apply in_or_app. right. left. reflexivity.
Qed.

(** A computation that never clears the flag leaves it set if it starts
    with it set. *)
Lemma sticky_last A (m : M A) s :
  sat stickyR m -> Flow.Stream (flow s) = true -> Flow.Stream (flow (snd (m s))) = true.
Proof.
  intros Hm Hs. specialize (Hm s). unfold stickyR in Hm. rewrite Hs in Hm.
  eapply monotone_last. exact Hm.
Qed.

Section Sticky.

Variable env : Env.t.
Variable proxy : Proxy.t.
Hypothesis Hkeep : forall a, In a (Proxy.Addons proxy) -> keepsStream a.

Lemma keeps_hooks a :
  In a (Proxy.Addons proxy) ->
  keepsFlag (Addon.Requestheaders a) /\ keepsFlag (Addon.Request a)
  /\ keepsFlag (Addon.Responseheaders a) /\ keepsFlag (Addon.Response a)
  /\ keepsFlagM (Addon.StreamRequestModifier a)
  /\ keepsFlagM (Addon.StreamResponseModifier a).
Proof.
  intros Ha. pose proof (Hkeep a Ha) as K. unfold keepsFlag, keepsFlagM.
  repeat split; intros; destruct (K f) as (K1 & K2 & K3 & K4 & K5 & K6); eauto.
Qed.

Lemma sticky_trigger h fn addons :
  (forall a, In a addons -> keepsFlag (fn a)) ->
  forall i, sat stickyR (trigger h fn i addons).
Proof.
  induction addons as [|a rest IH]; intros Hk i; simpl.
  - apply sat_ret; auto with sat.
  - apply sat_bind; [auto with sat | apply sticky_callHook, Hk; left; reflexivity|].
    intros _. apply IH. intros b Hb. apply Hk. right. exact Hb.
Qed.

Lemma sticky_triggerOrReply h fn addons :
  (forall a, In a addons -> keepsFlag (fn a)) ->
  forall i, sat stickyR (triggerOrReply h fn i addons).
Proof.
  induction addons as [|a rest IH]; intros Hk i; simpl.
  - apply sat_ret; auto with sat.
  - apply sat_bind; [auto with sat | apply sticky_callHook, Hk; left; reflexivity|].
    intros _. apply sat_bind; [auto with sat | apply sat_getFlow; auto with sat|].
    intros f. destruct (Flow.Response f).
    + repeat sat_step.
    + apply IH. intros b Hb. apply Hk. right. exact Hb.
Qed.

Lemma sticky_triggerResponseheaders addons :
  (forall a, In a addons -> keepsFlag (Addon.Responseheaders a)) ->
  forall i, sat stickyR (triggerResponseheaders i addons).
Proof.
  induction addons as [|a rest IH]; intros Hk i; simpl.
  - apply sat_ret; auto with sat.
  - apply sat_bind; [auto with sat | apply sticky_callHook, Hk; left; reflexivity|].
    intros _. apply sat_bind; [auto with sat | apply sat_derefResponse; auto with sat|].
    intros r. destruct (Response.Body r).
    + repeat sat_step.
    + apply IH. intros b Hb. apply Hk. right. exact Hb.
Qed.

Lemma sticky_modifiers d fn addons :
  (forall a, In a addons -> keepsFlagM (fn a)) ->
  forall i body, sat stickyR (modifiers d fn i addons body).
Proof.
  induction addons as [|a rest IH]; intros Hk i body; simpl.
  - apply sat_ret; auto with sat.
  - apply sat_bind; [auto with sat | apply sticky_callModifier, Hk; left; reflexivity|].
    intros body'. apply IH. intros b Hb. apply Hk. right. exact Hb.
Qed.

Lemma sticky_Requestheaders_or_reply i :
  sat stickyR (triggerOrReply HRequestheaders Addon.Requestheaders i (Proxy.Addons proxy)).
Proof. apply sticky_triggerOrReply. intros a Ha. apply (keeps_hooks a Ha). Qed.

Lemma sticky_Request i :
  sat stickyR (triggerOrReply HRequest Addon.Request i (Proxy.Addons proxy)).
Proof. apply sticky_triggerOrReply. intros a Ha. apply (keeps_hooks a Ha). Qed.

Lemma sticky_Requestheaders i :
  sat stickyR (trigger HRequestheaders Addon.Requestheaders i (Proxy.Addons proxy)).
Proof. apply sticky_trigger. intros a Ha. apply (keeps_hooks a Ha). Qed.

Lemma sticky_Responseheaders_or_reply i :
  sat stickyR (triggerResponseheaders i (Proxy.Addons proxy)).
Proof. apply sticky_triggerResponseheaders. intros a Ha. apply (keeps_hooks a Ha). Qed.

Lemma sticky_Responseheaders i :
  sat stickyR (trigger HResponseheaders Addon.Responseheaders i (Proxy.Addons proxy)).
Proof. apply sticky_trigger. intros a Ha. apply (keeps_hooks a Ha). Qed.

Lemma sticky_Response i :
  sat stickyR (trigger HResponse Addon.Response i (Proxy.Addons proxy)).
Proof. apply sticky_trigger. intros a Ha. apply (keeps_hooks a Ha). Qed.

Lemma sticky_requestModifiers i body :
  sat stickyR (modifiers DRequest Addon.StreamRequestModifier i (Proxy.Addons proxy) body).
Proof. apply sticky_modifiers. intros a Ha. apply (keeps_hooks a Ha). Qed.

Lemma sticky_responseModifiers i body :
  sat stickyR (modifiers DResponse Addon.StreamResponseModifier i (Proxy.Addons proxy) body).
Proof. apply sticky_modifiers. intros a Ha. apply (keeps_hooks a Ha). Qed.

#[local] Hint Resolve sticky_Requestheaders_or_reply sticky_Request sticky_Requestheaders
  sticky_Responseheaders_or_reply sticky_Responseheaders sticky_Response
  sticky_requestModifiers sticky_responseModifiers : sat.

Lemma sticky_toResponseheaders req reqBody :
  sat stickyR (reqBody' <- modifiers DRequest Addon.StreamRequestModifier 0
                             (Proxy.Addons proxy) reqBody ;;
               proxyRes <- forward env req reqBody' ;;
               triggerResponseheaders 0 (Proxy.Addons proxy) ;;
               ret proxyRes).
Proof. unfold forward, initHttpServerConn. repeat sat_step. Qed.

Lemma sticky_pipeline req : sat stickyR (pipeline env proxy req).
Proof.
  unfold pipeline, requestheadersStage, readRequestBody, forward, initHttpServerConn,
    readResponseBody, sendResponse.
  repeat sat_step.
Qed.

Lemma sticky_handleConnectBody req : sat stickyR (handleConnectBody env proxy req).
Proof.
  unfold handleConnectBody, connectRequestheaders, connectTunnel.
  apply sat_bind; [auto with sat | repeat sat_step |]. intros _.
  apply sat_bind; [auto with sat | |].
  - apply sticky_emits. unfold connectDial, getUpstreamConn.
    destruct (shouldIntercept proxy req); [repeat constructor|].
    destruct (getUpstreamProxyUrl env proxy req) as [[u|] [e|]]; repeat constructor.
  - intros _. repeat sat_step.
Qed.

Lemma sticky_runDefers ds : forall p f,
  monotone (Flow.Stream f)
    (streamsOf (fst (fst (runDefers proxy ds p f)))
     ++ [Flow.Stream (snd (runDefers proxy ds p f))]) = true.
Proof.
  induction ds as [|d ds IH]; intros p f; simpl.
  - rewrite andb_true_r. destruct (Flow.Stream f); reflexivity.
  - assert (H1 : monotone (Flow.Stream f)
                   (streamsOf (fst (fst (runDeferred proxy d p f)))
                    ++ [Flow.Stream (snd (runDeferred proxy d p f))]) = true).
    { destruct d; simpl; try destruct p; simpl; rewrite ?andb_true_r;
        try (destruct (Flow.Stream f); reflexivity).
      all: pose proof (sticky_Response 0 (mkSt f [])) as H;
        unfold stickyR, traceOf in H;
        destruct (trigger HResponse Addon.Response 0 (Proxy.Addons proxy) (mkSt f []))
          as [[e' r'] st]; exact H. }
    destruct (runDeferred proxy d p f) as [[e1 p1] f1]. simpl in H1.
    specialize (IH p1 f1).
    destruct (runDefers proxy ds p1 f1) as [[e2 p2] f2]. simpl in *.
    rewrite streamsOf_app, <- app_assoc. eapply monotone_app; eassumption.
Qed.

Lemma sticky_runHandler body f :
  sat stickyR body ->
  monotone (Flow.Stream f) (streamTrail (runHandler proxy body f)) = true.
Proof.
  intros Hb. specialize (Hb (mkSt f [])). unfold stickyR, traceOf in Hb.
  unfold runHandler. destruct (body (mkSt f [])) as [[e1 r] s1]. simpl in Hb.
  pose proof (sticky_runDefers (defers s1)
                (match r with Stop (Panic v) => Some v | _ => None end) (flow s1)) as Hd.
  destruct (runDefers proxy (defers s1) _ (flow s1)) as [[e2 p] f2]. simpl in *.
  unfold streamTrail. simpl. rewrite map_app, flat_map_app, map_app, <- app_assoc.
  eapply monotone_app; eassumption.
Qed.

End Sticky.

Lemma plain_accessProxyServer req addons : forall i,
  Forall (fun e => snapshots e = []) (fst (accessProxyServer req i addons)).
Proof.
  induction addons as [|a rest IH]; intros i; simpl; [constructor|].
  destruct (Addon.AccessProxyServer a req) as [ops|v].
  - specialize (IH (S i)). destruct (accessProxyServer req (S i) rest) as [e p].
    simpl in *. constructor; [reflexivity|]. apply Forall_app; split; [|exact IH].
    clear. induction ops; constructor; [reflexivity | assumption].
  - repeat constructor.
Qed.

(** ** The dispatcher's own steps *)

Lemma handsOn_weaken t : forall a b last,
  implb a b = true -> handsOn b t last = true -> handsOn a t last = true.
Proof.
  induction t as [|e t IH]; intros a b last Hab H; simpl in *.
  - destruct a, b, last; auto.
  - destruct (callback e) as [[f after]|].
    + apply andb_true_iff in H. destruct H as [H1 H2]. rewrite H2, andb_true_r.
      destruct a, b, (Flow.Stream f); auto.
    + eapply IH; eassumption.
Qed.

Lemma handsOn_app t1 : forall a b t2 last,
  handsOn a t1 b = true -> handsOn b t2 last = true ->
  handsOn a (t1 ++ t2) last = true.
Proof.
  induction t1 as [|e t1 IH]; intros a b t2 last H1 H2; simpl in *.
  - eapply handsOn_weaken; eassumption.
  - destruct (callback e) as [[f after]|].
    + apply andb_true_iff in H1. destruct H1 as [Ha H1]. rewrite Ha. simpl.
      eapply IH; eassumption.
    + eapply IH; eassumption.
Qed.

Lemma callback_plain e : snapshots e = [] -> callback e = None.
Proof.
  destruct e as [h i f o|d i f o| | | | | | | | | | |]; try reflexivity; simpl.
  - destruct o; discriminate.
  - destruct o as [[a b]|v]; discriminate.
Qed.

Lemma handsOn_plain t b last :
  Forall (fun e => snapshots e = []) t -> handsOn b t last = implb b last.
Proof.
  induction 1 as [|x t Hx _ IH]; simpl; [reflexivity|].
  rewrite (callback_plain x Hx). exact IH.
Qed.

Lemma implb_refl b : implb b b = true.
Proof. destruct b; reflexivity. Qed.

Lemma ownR_Composable : Composable ownR.
Proof.
  split; unfold ownR; simpl.
  - intros s. apply implb_refl.
  - intros s. apply implb_refl.
  - intros s e1 s1 e2 b s2 H1 H2. eapply handsOn_app; eassumption.
Qed.
#[local] Hint Resolve ownR_Composable : sat.

Lemma own_emits l :
  Forall (fun e => snapshots e = []) l -> sat ownR (emits l).
Proof.
  intros H s. unfold ownR, traceOf. simpl.
  rewrite (handsOn_plain l _ _ H). apply implb_refl.
Qed.

Lemma own_emit e : snapshots e = [] -> sat ownR (emit e).
Proof.
  intros H. apply (own_emits [e]). constructor; [exact H | constructor].
Qed.

Lemma own_defer d : sat ownR (defer d).
Proof. intros s. unfold ownR, traceOf. simpl. apply implb_refl. Qed.

Lemma own_modifyFlow g :
  (forall f, Flow.Stream f = true -> Flow.Stream (g f) = true) ->
  sat ownR (modifyFlow g).
Proof.
  intros H s. unfold ownR, traceOf. simpl.
  destruct (Flow.Stream (flow s)) eqn:E; [|reflexivity]. rewrite (H _ E). reflexivity.
Qed.

Lemma own_modifyResponse g : sat ownR (modifyResponse g).
Proof.
  intros s. unfold ownR, modifyResponse, traceOf.
  destruct (Flow.Response (flow s)); simpl; apply implb_refl.
Qed.

(** A callback is free to write the flag: the step into it and the step
    out of it are the dispatcher's, and neither touches the flow. *)
Lemma own_callHook h i fn : sat ownR (callHook h i fn).
Proof.
  intros s. unfold ownR, callHook, traceOf.
  destruct (fn (flow s)) as [f'|v]; simpl; rewrite !implb_refl; reflexivity.
Qed.

Lemma own_callModifier d i fn body : sat ownR (callModifier d i fn body).
Proof.
  intros s. unfold ownR, callModifier, traceOf.
  destruct (fn (flow s) body) as [[f' b']|v]; simpl; rewrite !implb_refl; reflexivity.
Qed.

Lemma own_reply response body : sat ownR (reply response body).
Proof.
  intros s. pose proof (own_emits _ (plain_replyTrace response body) s) as H.
  unfold ownR, traceOf in *. rewrite reply_run. exact H.
Qed.

Lemma own_badGateway A e : sat ownR (@badGateway A e).
Proof.
  unfold badGateway.
  apply sat_bind; [auto with sat | apply own_emit; reflexivity|]. intros _.
  apply sat_bind; [auto with sat | apply own_emit; reflexivity|]. intros _.
  apply sat_return_. auto with sat.
Qed.
#[local] Hint Resolve own_defer own_modifyResponse own_reply own_badGateway
  own_callHook own_callModifier : sat.
#[local] Hint Extern 2 (sat ownR (emit _)) => apply own_emit; reflexivity : sat.
#[local] Hint Extern 2 (sat ownR (modifyFlow _)) =>
  apply own_modifyFlow; intros; assumption : sat.
#[local] Hint Extern 2 (sat ownR (modifyFlow (fun f => Flow.setStream f true))) =>
  apply own_modifyFlow; intros; reflexivity : sat.

Lemma own_trigger h fn addons : forall i, sat ownR (trigger h fn i addons).
Proof.
  induction addons as [|a rest IH]; intros i; simpl; repeat sat_step; try apply IH.
Qed.

Lemma own_triggerOrReply h fn addons : forall i, sat ownR (triggerOrReply h fn i addons).
Proof.
  induction addons as [|a rest IH]; intros i; simpl; repeat sat_step; try apply IH.
Qed.

Lemma own_triggerResponseheaders addons :
  forall i, sat ownR (triggerResponseheaders i addons).
Proof.
  induction addons as [|a rest IH]; intros i; simpl; repeat sat_step; try apply IH.
Qed.

Lemma own_modifiers d fn addons :
  forall i body, sat ownR (modifiers d fn i addons body).
Proof.
  induction addons as [|a rest IH]; intros i body; simpl; repeat sat_step; try apply IH.
Qed.
#[local] Hint Resolve own_trigger own_triggerOrReply own_triggerResponseheaders
  own_modifiers : sat.

Lemma own_pipeline env proxy req : sat ownR (pipeline env proxy req).
Proof.
  unfold pipeline, requestheadersStage, readRequestBody, forward, initHttpServerConn,
    readResponseBody, sendResponse.
  repeat sat_step.
Qed.

Lemma own_handleConnectBody env proxy req : sat ownR (handleConnectBody env proxy req).
Proof.
  unfold handleConnectBody, connectRequestheaders, connectTunnel.
  apply sat_bind; [auto with sat | repeat sat_step |]. intros _.
  apply sat_bind; [auto with sat | |].
  - apply own_emits. unfold connectDial, getUpstreamConn.
    destruct (shouldIntercept proxy req); [repeat constructor|].
    destruct (getUpstreamProxyUrl env proxy req) as [[u|] [e|]]; repeat constructor.
  - intros _. repeat sat_step.
Qed.

Lemma own_runDefers proxy ds : forall p f,
  handsOn (Flow.Stream f) (fst (fst (runDefers proxy ds p f)))
          (Flow.Stream (snd (runDefers proxy ds p f))) = true.
Proof.
  induction ds as [|d ds IH]; intros p f; simpl.
  - apply implb_refl.
  - assert (H1 : handsOn (Flow.Stream f) (fst (fst (runDeferred proxy d p f)))
                   (Flow.Stream (snd (runDeferred proxy d p f))) = true).
    { destruct d; simpl; try destruct p; simpl; try apply implb_refl.
      all: pose proof (own_trigger HResponse Addon.Response (Proxy.Addons proxy) 0
                         (mkSt f [])) as H;
        unfold ownR, traceOf in H;
        destruct (trigger HResponse Addon.Response 0 (Proxy.Addons proxy) (mkSt f []))
          as [[e' r'] st]; exact H. }
    destruct (runDeferred proxy d p f) as [[e1 p1] f1]. simpl in H1.
    specialize (IH p1 f1).
    destruct (runDefers proxy ds p1 f1) as [[e2 p2] f2]. simpl in *.
    eapply handsOn_app; eassumption.
Qed.

Lemma own_runHandler proxy body f :
  sat ownR body -> keptByDispatcher (runHandler proxy body f) = true.
Proof.
  intros Hb. specialize (Hb (mkSt f [])). unfold ownR, traceOf in Hb.
  unfold keptByDispatcher, runHandler. destruct (body (mkSt f [])) as [[e1 r] s1].
  simpl in Hb.
  pose proof (own_runDefers proxy (defers s1)
                (match r with Stop (Panic v) => Some v | _ => None end) (flow s1)) as Hd.
  destruct (runDefers proxy (defers s1) _ (flow s1)) as [[e2 p] f2]. simpl in *.
  apply (handsOn_weaken _ false (Flow.Stream f)); [reflexivity|].
  eapply handsOn_app; eassumption.
Qed.

Lemma keptByDispatcher_ServeHTTP env proxy req cc :
  keptByDispatcher (ServeHTTP env proxy req cc) = true.
Proof.
  unfold ServeHTTP.
  destruct (HttpRequest.Method req =? "CONNECT")%string.
  - apply own_runHandler, own_handleConnectBody.
  - destruct (negb (URL.IsAbs (HttpRequest.URL req))
              || (URL.Host (HttpRequest.URL req) =? EmptyString)%string).
    + destruct (List.length (Proxy.Addons proxy) =? 0)%nat; [reflexivity|].
      pose proof (plain_accessProxyServer req (Proxy.Addons proxy) 0) as Hp.
      destruct (accessProxyServer req 0 (Proxy.Addons proxy)) as [e p].
      unfold keptByDispatcher. simpl in *. rewrite (handsOn_plain e _ _ Hp). reflexivity.
    + apply own_runHandler, own_pipeline.
Qed.

Lemma sticky_ServeHTTP env proxy req cc :
  (forall a, In a (Proxy.Addons proxy) -> keepsStream a) ->
  exists b, monotone b (streamTrail (ServeHTTP env proxy req cc)) = true.
Proof.
  intros Hkeep. unfold ServeHTTP.
  destruct (HttpRequest.Method req =? "CONNECT")%string.
  - eexists. apply sticky_runHandler; [exact Hkeep|].
    apply sticky_handleConnectBody. exact Hkeep.
  - destruct (negb (URL.IsAbs (HttpRequest.URL req))
              || (URL.Host (HttpRequest.URL req) =? EmptyString)%string).
    + exists false. destruct (List.length (Proxy.Addons proxy) =? 0)%nat; [reflexivity|].
      pose proof (plain_accessProxyServer req (Proxy.Addons proxy) 0) as Hp.
      destruct (accessProxyServer req 0 (Proxy.Addons proxy)) as [e p].
      unfold streamTrail. simpl in *. rewrite app_nil_r.
      fold (streamsOf e). rewrite (streamsOf_plain e Hp). reflexivity.
    + eexists. apply sticky_runHandler; [exact Hkeep|].
      apply sticky_pipeline. exact Hkeep.
Qed.

(** C4, as the code has it.  Nothing the dispatcher does clears
    [f.Stream]: during any call of [ServeHTTP], with any addons, a flag
    that is set when an addon callback returns is set in the flow the
    next callback receives, and a flag set when the last callback
    returns is set when the handler leaves; the dispatcher's only
    writes of the field assign [true].  An addon callback can clear the
    flag, the field being exported.  So the flag is sticky for the
    flows whose addon callbacks do not clear it: then the successive
    values of [f.Stream] that the call shows (before and after every
    callback, and when the handler leaves) never go from [true] back to
    [false]. *)
Theorem C4_stream_is_sticky env proxy req cc :
  keptByDispatcher (ServeHTTP env proxy req cc) = true
  /\ ((forall a, In a (Proxy.Addons proxy) -> keepsStream a) ->
      forall l1 l2,
        streamTrail (ServeHTTP env proxy req cc) = l1 ++ true :: l2 ->
        Forall (fun b => b = true) l2).
Proof.
  split; [apply keptByDispatcher_ServeHTTP|].
  intros Hkeep l1 l2 Htrail.
  destruct (sticky_ServeHTTP env proxy req cc Hkeep) as [b Hm].
  rewrite Htrail in Hm. eapply monotone_sticks. exact Hm.
Qed.

(** C4, counterexample.  A request body of 8 bytes against a threshold
    of 4 sets [f.Stream]; the addon's [Responseheaders] clears it; the
    origin's body is then buffered and [Response] is invoked.  The flag
    goes from [true] back to [false] within the flow, and it does so
    inside the callback: the dispatcher's own steps keep it. *)
Lemma C4_counterexample :
  let run := ServeHTTP sampleEnv (sampleProxy [unstreamAddon])
               (sampleRequest "POST" originURL "12345678") sampleConn in
  streamTrail run = [false; false; true; true; true] ++ repeat false 6
  /\ (exists l1 l2, streamTrail run = l1 ++ true :: l2
                    /\ ~ Forall (fun b => b = true) l2)
  /\ hookCalls HResponse (events run) = [0%nat]
  /\ keptByDispatcher run = true.
Proof.
  intros run.
  assert (Ht : streamTrail run = [false; false; true; true; true] ++ repeat false 6)
    by (vm_compute; reflexivity).
  split; [exact Ht|]. split; [|split; vm_compute; reflexivity].
  exists [false; false; true; true], (repeat false 6). split; [exact Ht|].
  intros H. inversion H; discriminate.
Qed.

(** C4, witness: an addon sets the flag in [Requestheaders] and none
    clears it; every later value shown is [true]. *)
Lemma C4_witness :
  let run := ServeHTTP sampleEnv (sampleProxy [streamingAddon; Addon.BaseAddon])
               (sampleRequest "GET" originURL "hi") sampleConn in
  keptByDispatcher run = true
  /\ (forall a, In a [streamingAddon; Addon.BaseAddon] -> keepsStream a)
  /\ streamTrail run = [false] ++ true :: repeat true 15
  /\ Forall (fun b => b = true) (repeat true 15).
Proof.
  intros run.
  assert (Hk : forall a, In a (Proxy.Addons (sampleProxy [streamingAddon; Addon.BaseAddon])) ->
                         keepsStream a).
  { intros a [<-|[<-|[]]] f Hf; repeat split; simpl; intros;
      match goal with H : Ok _ = Ok _ |- _ => inversion H; subst end;
      solve [assumption | reflexivity]. }
  assert (Ht : streamTrail run = [false] ++ true :: repeat true 15)
    by (vm_compute; reflexivity).
  destruct (C4_stream_is_sticky sampleEnv (sampleProxy [streamingAddon; Addon.BaseAddon])
              (sampleRequest "GET" originURL "hi") sampleConn) as [H1 H2].
  split; [exact H1|]. split; [exact Hk|]. split; [exact Ht|].
  exact (H2 Hk [false] (repeat true 15) Ht).
Defined.

(* ================================================================== *)
(** * Which flows fire [Request] and [Response]                         *)
(* ================================================================== *)

Lemma traceOf_bind A B (m : M A) (k : A -> M B) s :
  traceOf (bind m k) s
  = traceOf m s ++ match snd (fst (m s)) with
                   | Val a => traceOf (k a) (snd (m s))
                   | Stop _ => []
                   end.
Proof.
  unfold traceOf, bind. destruct (m s) as [[e1 r1] s1]. simpl.
  destruct r1 as [a|x]; simpl; [|rewrite app_nil_r; reflexivity].
  destruct (k a s1) as [[e2 r2] s2]. reflexivity.
Qed.

Lemma bind_Val_inv A B (m : M A) (k : A -> M B) s e b s' :
  bind m k s = (e, Val b, s') ->
  exists e1 a s1 e2,
    m s = (e1, Val a, s1) /\ k a s1 = (e2, Val b, s') /\ e = e1 ++ e2.
Proof.
  unfold bind. destruct (m s) as [[e1 r1] s1]. destruct r1 as [a|x]; [|discriminate].
  destruct (k a s1) as [[e2 r2] s2] eqn:Ek. intros H. inversion H; subst.
  exists e1, a, s1, e2. auto.
Qed.

Lemma Hook_eqb_eq a b : Hook_eqb a b = true -> a = b.
Proof. destruct a, b; simpl; intros H; try discriminate; reflexivity. Qed.

Lemma hookCalls_app h t1 t2 : hookCalls h (t1 ++ t2) = hookCalls h t1 ++ hookCalls h t2.
Proof. unfold hookCalls. apply flat_map_app. Qed.

Lemma hookCalls_kinds ks h t :
  Forall (kindIn ks) t -> ~ In (KHook h) ks -> hookCalls h t = [].
Proof.
  intros H Hn. induction H as [|x t Hx _ IH]; [reflexivity|].
  unfold hookCalls in *. simpl. rewrite IH, app_nil_r.
  destruct x; try reflexivity.
  destruct (Hook_eqb h h0) eqn:E; [|reflexivity].
  apply Hook_eqb_eq in E. subst h0. contradiction.
Qed.

Lemma hookCalls_passed h h' t :
  Forall (passed h') t -> h <> h' -> hookCalls h t = [].
Proof.
  intros H Hn. apply (hookCalls_kinds [KHook h']).
  - eapply Forall_impl; [|exact H]. intros x (i & f & f' & -> & _). in_list.
  - simpl. intros [E|[]]. inversion E. congruence.
Qed.

Lemma Hook_eqb_refl h : Hook_eqb h h = true.
Proof. destruct h; reflexivity. Qed.

Lemma triggerOrReply_first h fn i a rest s :
  exists o t, traceOf (triggerOrReply h fn i (a :: rest)) s = EvHook h i (flow s) o :: t.
Proof.
  simpl. rewrite traceOf_bind. unfold traceOf at 1. unfold callHook.
  destruct (fn a (flow s)); simpl; eexists; eexists; reflexivity.
Qed.

Lemma trigger_first h fn i a rest s :
  exists o t, traceOf (trigger h fn i (a :: rest)) s = EvHook h i (flow s) o :: t.
Proof.
  simpl. rewrite traceOf_bind. unfold traceOf at 1. unfold callHook.
  destruct (fn a (flow s)); simpl; eexists; eexists; reflexivity.
Qed.

Lemma trigger_calls h fn addons :
  (forall a f, In a addons -> exists f', fn a f = Ok f') ->
  forall i s, hookCalls h (traceOf (trigger h fn i addons) s) = seq i (List.length addons).
Proof.
  induction addons as [|a rest IH]; intros Hok i s; [reflexivity|].
  simpl. rewrite traceOf_bind, hookCalls_app.
  unfold traceOf at 1. unfold callHook.
  destruct (Hok a (flow s) (or_introl eq_refl)) as [f' Hf]. rewrite Hf. simpl.
  rewrite Hook_eqb_refl. simpl. f_equal.
  apply IH. intros b g Hb. apply Hok. right. exact Hb.
Qed.

Lemma triggerResponseheaders_response addons : forall i s e u s',
  triggerResponseheaders i addons s = (e, Val u, s') ->
  Flow.Response (flow s) <> None -> Flow.Response (flow s') <> None.
Proof.
  induction addons as [|a rest IH]; intros i s e u s' H Hr; simpl in H.
  - inversion H; subst. exact Hr.
  - unfold bind, callHook, derefResponse in H.
    destruct (Addon.Responseheaders a (flow s)) as [f'|v]; [|discriminate].
    simpl in H. destruct (Flow.Response f') as [r|] eqn:Er; [|discriminate].
    simpl in H. destruct (Response.Body r).
    + rewrite reply_run in H. discriminate.
    + destruct (triggerResponseheaders (S i) rest (withFlow s f')) as [[e2 r2] s2] eqn:E2.
      destruct r2 as [u2|x]; [|discriminate]. inversion H; subst.
      eapply IH; [exact E2|]. simpl. rewrite Er. discriminate.
Qed.

Lemma modifyResponse_run g s resp :
  Flow.Response (flow s) = Some resp ->
  modifyResponse g s
  = ([], Val tt, withFlow s (Flow.setResponse (flow s) (Some (g resp)))).
Proof. intros H. unfold modifyResponse. rewrite H. reflexivity. Qed.

Lemma traceOf_modifyResponse g s : traceOf (modifyResponse g) s = [].
Proof.
  unfold traceOf, modifyResponse. destruct (Flow.Response (flow s)); reflexivity.
Qed.

Section Hooks.

Variable env : Env.t.
Variable proxy : Proxy.t.
Hypothesis Haddons : Proxy.Addons proxy <> [].

Lemma readRequestBody_calls req s buf r err :
  Env.readerToBuffer env (HttpRequest.Body req) (limit proxy) = (buf, r, err) ->
  hookCalls HRequest (traceOf (readRequestBody env proxy req) s) <> []
  <-> Flow.Stream (flow s) = false /\ err = None /\ buf <> None.
Proof.
  intros Hrd. unfold readRequestBody. rewrite traceOf_bind. simpl.
  destruct (Flow.Stream (flow s)).
  { simpl. split; [intros H; contradiction | intros [H _]; discriminate]. }
  rewrite Hrd. destruct err as [e|].
  { simpl. split; [intros H; contradiction | intros (_ & H & _); discriminate]. }
  destruct buf as [b|].
  - split; [intros _; repeat split; discriminate | intros _].
    rewrite traceOf_bind. simpl. rewrite traceOf_bind.
    destruct (Proxy.Addons proxy) as [|a rest]; [contradiction|].
    destruct (triggerOrReply_first HRequest Addon.Request 0 a rest
                (withFlow s (Flow.setRequestBody (flow s) (Some b)))) as (o & t & ->).
    simpl. discriminate.
  - simpl. split; [intros H; contradiction | intros (_ & _ & H); contradiction].
Qed.

Lemma readResponseBody_calls proxyRes s buf r err :
  Env.readerToBuffer env (HttpResponse.Body proxyRes) (limit proxy) = (buf, r, err) ->
  Flow.Response (flow s) <> None ->
  (hookCalls HResponse (traceOf (readResponseBody env proxy proxyRes) s) <> []
   <-> Flow.Stream (flow s) = false /\ err = None /\ buf <> None)
  /\ (Flow.Stream (flow s) = false -> err = None -> buf <> None ->
      (forall a f, In a (Proxy.Addons proxy) -> exists f', Addon.Response a f = Ok f') ->
      hookCalls HResponse (traceOf (readResponseBody env proxy proxyRes) s)
      = seq 0 (List.length (Proxy.Addons proxy))).
Proof.
  intros Hrd Hresp. unfold readResponseBody. rewrite traceOf_bind. simpl.
  destruct (Flow.Stream (flow s)).
  { simpl. split; [|discriminate].
    split; [intros H; contradiction | intros [H _]; discriminate]. }
  rewrite Hrd. destruct err as [e|].
  { simpl. split; [|discriminate].
    split; [intros H; contradiction | intros (_ & H & _); discriminate]. }
  destruct buf as [b|].
  - destruct (Flow.Response (flow s)) as [resp|] eqn:Er; [|contradiction].
    rewrite traceOf_bind, traceOf_modifyResponse.
    rewrite (modifyResponse_run _ s resp Er). simpl.
    rewrite traceOf_bind. split.
    + split; [intros _; repeat split; discriminate | intros _].
      rewrite hookCalls_app.
      destruct (Proxy.Addons proxy) as [|a rest]; [contradiction|].
      match goal with |- context [traceOf (trigger HResponse Addon.Response 0 (a :: rest)) ?st] =>
        destruct (trigger_first HResponse Addon.Response 0 a rest st) as (o & t & ->) end.
      simpl. discriminate.
    + intros _ _ _ Hok. rewrite hookCalls_app, (trigger_calls _ _ _ Hok).
      match goal with |- _ ++ hookCalls _ ?t = _ => replace t with (@nil Event) end.
      * apply app_nil_r.
      * destruct (snd (fst (trigger HResponse Addon.Response 0 (Proxy.Addons proxy) _)));
          reflexivity.
  - simpl. split; [|intros _ _ H; contradiction].
    split; [intros H; contradiction | intros (_ & _ & H); contradiction].
Qed.

End Hooks.

Lemma responseheadersStage_block env proxy req cc ks e r s :
  In KLog ks -> In KRes ks -> In (KHook HRequestheaders) ks ->
  In (KHook HRequest) ks -> In (KModifier DRequest) ks ->
  In KInit ks -> In KDo ks -> In (KHook HResponseheaders) ks ->
  responseheadersStage env proxy req (start req cc) = (e, r, s) ->
  (exists l, defers s = l ++ [DFinish; DRecover] /\ Forall isClose l)
  /\ Forall (kindIn ks) e.
Proof.
  intros H1 H2 H3 H4 H5 H6 H7 H8 Hrun.
  unfold responseheadersStage, requestModifierStage in Hrun.
  rewrite bind_assoc, bind_requestheadersStage in Hrun.
  match type of Hrun with ?m _ = _ =>
    assert (Hs : sat (blockR false ks) m) end.
  { apply sat_bind; [auto with sat | auto with sat |]. intros _.
    apply sat_bind; [auto with sat | |].
    - apply sat_bind; [auto with sat | apply block_readRequestBody; assumption |].
      intros. auto with sat.
    - intros reqBody.
      apply sat_bind; [auto with sat | apply block_forward; assumption |].
      intros proxyRes. repeat sat_step. }
  specialize (Hs (mkSt (counted (flow (start req cc)))
                       (DFinish :: DRecover :: defers (start req cc)))).
  unfold traceOf in Hs. rewrite Hrun in Hs. destruct Hs as [Hd [Hk _]].
  split; assumption.
Qed.

Lemma responseheadersStage_response env proxy req s0 e proxyRes s :
  responseheadersStage env proxy req s0 = (e, Val proxyRes, s) ->
  Flow.Response (flow s) <> None.
Proof.
  unfold responseheadersStage. intros H.
  apply bind_Val_inv in H. destruct H as (e1 & reqBody & s1 & e2 & _ & H & _).
  apply bind_Val_inv in H. destruct H as (e3 & pr & s3 & e4 & Hf & H & _).
  apply bind_Val_inv in H. destruct H as (e5 & u & s5 & e6 & Ht & H & _).
  inversion H; subst.
  eapply triggerResponseheaders_response; [exact Ht|].
  rewrite forward_run in Hf.
  destruct (Env.NewRequestWithContext env _ _); [discriminate|].
  simpl in Hf. destruct (Env.Do env _ _); [|discriminate].
  inversion Hf; subst. simpl. discriminate.
Qed.

(** A request body that is streamed leaves [f.Stream] set when the
    response body is to be read, if no addon clears the flag. *)
Lemma request_streamed_flag_set env proxy req cc evs proxyRes s evs1 s1 buf r err :
  (forall a, In a (Proxy.Addons proxy) -> keepsStream a) ->
  responseheadersStage env proxy req (start req cc) = (evs, Val proxyRes, s) ->
  requestheadersStage proxy (start req cc) = (evs1, Val tt, s1) ->
  Env.readerToBuffer env (HttpRequest.Body req) (limit proxy) = (buf, r, err) ->
  Flow.Stream (flow s1) = true \/ buf = None ->
  Flow.Stream (flow s) = true.
Proof.
  intros Hkeep Hst Hst1 Hrd Hor.
  assert (Hcut : responseheadersStage env proxy req (start req cc)
                 = bind (requestheadersStage proxy)
                     (fun _ => bind (readRequestBody env proxy req)
                        (fun reqBody =>
                           reqBody' <- modifiers DRequest Addon.StreamRequestModifier 0
                                         (Proxy.Addons proxy) reqBody ;;
                           proxyRes <- forward env req reqBody' ;;
                           triggerResponseheaders 0 (Proxy.Addons proxy) ;;
                           ret proxyRes)) (start req cc)).
  { unfold responseheadersStage, requestModifierStage.
    rewrite bind_assoc. apply bind_ext. intros _ s2.
    rewrite bind_assoc. apply bind_ext. intros b s3.
    reflexivity. }
  rewrite Hcut in Hst.
  apply bind_Val_inv in Hst. destruct Hst as (e1 & u & s1' & e2 & H1 & H2 & _).
  rewrite Hst1 in H1. inversion H1; subst s1'. clear H1.
  apply bind_Val_inv in H2. destruct H2 as (e3 & b & s2 & e4 & Hrrb & Hrest & _).
  assert (Hs2 : Flow.Stream (flow s2) = true).
  { unfold readRequestBody, bind, getFlow in Hrrb. simpl in Hrrb.
    destruct (Flow.Stream (flow s1)) eqn:Es.
    - inversion Hrrb; subst. exact Es.
    - rewrite Hrd in Hrrb. destruct err; [discriminate|].
      destruct Hor as [Hor|Hor]; [discriminate|]. subst buf.
      inversion Hrrb; subst. reflexivity. }
  pose proof (sticky_last _ _ s2 (sticky_toResponseheaders env proxy Hkeep req b) Hs2) as H.
  rewrite Hrest in H. exact H.
Qed.

(** C1, with the one flag the code has.  In the forward pipeline, with
    at least one addon registered, streaming is decided by the one flag
    [f.Stream] of the flow together with the size test of
    [readerToBuffer]:
    - [Request] is invoked exactly when, after the [Requestheaders]
      loop, [f.Stream] is false and the request body is read without
      error into a buffer (it is below the threshold);
    - [Response] is invoked exactly when, after the [Responseheaders]
      loop, [f.Stream] is false and the response body is read without
      error into a buffer; it is then invoked on every addon, in order,
      if no [Response] callback panics;
    - when the request body was streamed and no addon clears the flag,
      [f.Stream] is set after the [Responseheaders] loop, so [Response]
      is invoked on no addon, whatever the size of the response body. *)
Theorem C1_hooks_follow_stream_flag env proxy req cc :
  isForward req = true ->
  Proxy.Addons proxy <> [] ->
  (forall evs s buf r err,
      requestheadersStage proxy (start req cc) = (evs, Val tt, s) ->
      Env.readerToBuffer env (HttpRequest.Body req) (limit proxy) = (buf, r, err) ->
      (hookCalls HRequest (events (ServeHTTP env proxy req cc)) <> []
       <-> Flow.Stream (flow s) = false /\ err = None /\ buf <> None))
  /\ (forall evs proxyRes s buf r err,
      responseheadersStage env proxy req (start req cc) = (evs, Val proxyRes, s) ->
      Env.readerToBuffer env (HttpResponse.Body proxyRes) (limit proxy) = (buf, r, err) ->
      (hookCalls HResponse (events (ServeHTTP env proxy req cc)) <> []
       <-> Flow.Stream (flow s) = false /\ err = None /\ buf <> None)
      /\ (Flow.Stream (flow s) = false -> err = None -> buf <> None ->
          (forall a f, In a (Proxy.Addons proxy) ->
                       exists f', Addon.Response a f = Ok f') ->
          hookCalls HResponse (events (ServeHTTP env proxy req cc))
          = seq 0 (List.length (Proxy.Addons proxy))))
  /\ (forall evs proxyRes s evs1 s1 buf r err,
      (forall a, In a (Proxy.Addons proxy) -> keepsStream a) ->
      responseheadersStage env proxy req (start req cc) = (evs, Val proxyRes, s) ->
      requestheadersStage proxy (start req cc) = (evs1, Val tt, s1) ->
      Env.readerToBuffer env (HttpRequest.Body req) (limit proxy) = (buf, r, err) ->
      Flow.Stream (flow s1) = true \/ buf = None ->
      hookCalls HRequest (events (ServeHTTP env proxy req cc)) = []
      /\ hookCalls HResponse (events (ServeHTTP env proxy req cc)) = []).
Proof.
  intros HF Haddons.
  assert (Hmain :
    (forall evs s buf r err,
      requestheadersStage proxy (start req cc) = (evs, Val tt, s) ->
      Env.readerToBuffer env (HttpRequest.Body req) (limit proxy) = (buf, r, err) ->
      (hookCalls HRequest (events (ServeHTTP env proxy req cc)) <> []
       <-> Flow.Stream (flow s) = false /\ err = None /\ buf <> None))
    /\ (forall evs proxyRes s buf r err,
      responseheadersStage env proxy req (start req cc) = (evs, Val proxyRes, s) ->
      Env.readerToBuffer env (HttpResponse.Body proxyRes) (limit proxy) = (buf, r, err) ->
      (hookCalls HResponse (events (ServeHTTP env proxy req cc)) <> []
       <-> Flow.Stream (flow s) = false /\ err = None /\ buf <> None)
      /\ (Flow.Stream (flow s) = false -> err = None -> buf <> None ->
          (forall a f, In a (Proxy.Addons proxy) ->
                       exists f', Addon.Response a f = Ok f') ->
          hookCalls HResponse (events (ServeHTTP env proxy req cc))
          = seq 0 (List.length (Proxy.Addons proxy))))).
  2: { destruct Hmain as [Hreq Hres]. split; [exact Hreq|]. split; [exact Hres|].
       intros evs proxyRes s evs1 s1 buf r err Hkeep Hst Hst1 Hrd Hor.
       pose proof (request_streamed_flag_set env proxy req cc _ _ _ _ _ _ _ _
                     Hkeep Hst Hst1 Hrd Hor) as Hset.
       split.
       - assert (H0 : ~ hookCalls HRequest (events (ServeHTTP env proxy req cc)) <> []).
         { intros Hne. apply (Hreq _ _ _ _ _ Hst1 Hrd) in Hne.
           destruct Hne as (Hf & _ & Hb). destruct Hor as [Hor|Hor]; congruence. }
         destruct (hookCalls HRequest (events (ServeHTTP env proxy req cc)));
           [reflexivity | exfalso; apply H0; discriminate].
       - destruct (Env.readerToBuffer env (HttpResponse.Body proxyRes) (limit proxy))
           as [[buf' r'] err'] eqn:Hrd'.
         assert (H0 : ~ hookCalls HResponse (events (ServeHTTP env proxy req cc)) <> []).
         { intros Hne. apply (proj1 (Hres _ _ _ _ _ _ Hst Hrd')) in Hne.
           destruct Hne as (Hf & _). congruence. }
         destruct (hookCalls HResponse (events (ServeHTTP env proxy req cc)));
           [reflexivity | exfalso; apply H0; discriminate]. }
  rewrite (ServeHTTP_forward env proxy req cc HF).
  assert (Hdef : forall h e2, Forall (kindIn [KClose; KFinish; KLog]) e2 ->
                              hookCalls h e2 = []).
  { intros h e2 H. apply (hookCalls_kinds _ h _ H). simpl. intuition discriminate. }
  split.
  - intros evs s buf r err Hst Hrd.
    pose proof Hst as Hst'. unfold start in Hst'. rewrite requestheadersStage_run in Hst'.
    apply triggerOrReply_cases in Hst'. destruct Hst' as [D1 C1]. simpl in D1.
    rewrite (runHandler_ext proxy _ _ _ (pipeline_afterRequestheaders env proxy req _)).
    destruct (forward_run_after proxy laterKinds _ (requestheadersStage proxy)
                (fun _ => afterRequestheaders env proxy req) _ _ tt _ [] Hst D1)
      as [e2 (-> & _ & He2 & _)]; [constructor | |].
    { apply block_afterRequestheaders; in_list. }
    simpl. rewrite !hookCalls_app, (Hdef _ _ He2), app_nil_r.
    rewrite (hookCalls_passed HRequest HRequestheaders evs C1) by discriminate.
    simpl. unfold afterRequestheaders. rewrite traceOf_bind, hookCalls_app.
    match goal with |- _ ++ hookCalls _ ?t <> [] <-> _ =>
      assert (Hrest : hookCalls HRequest t = []) end.
    { destruct (snd (fst (readRequestBody env proxy req s))) as [b|x]; [|reflexivity].
      apply (hookCalls_kinds
               [KLog; KRes; KModifier DRequest; KInit; KDo; KHook HResponseheaders;
                KHook HResponse; KModifier DResponse]).
      - match goal with |- Forall _ (traceOf ?m ?st) =>
          assert (Hs : sat (blockR false
                    [KLog; KRes; KModifier DRequest; KInit; KDo; KHook HResponseheaders;
                     KHook HResponse; KModifier DResponse]) m) end.
        { apply sat_bind; [auto with sat | auto with sat |].
          intros. apply block_afterRequestModifiers; in_list. }
        apply Hs.
      - simpl. intuition discriminate. }
    rewrite Hrest, app_nil_r.
    apply (readRequestBody_calls env proxy Haddons req s buf r err Hrd).
  - intros evs proxyRes s buf r err Hst Hrd.
    destruct (responseheadersStage_block env proxy req cc
                [KLog; KRes; KHook HRequestheaders; KHook HRequest; KModifier DRequest;
                 KInit; KDo; KHook HResponseheaders] _ _ _
                ltac:(in_list) ltac:(in_list) ltac:(in_list) ltac:(in_list)
                ltac:(in_list) ltac:(in_list) ltac:(in_list) ltac:(in_list) Hst)
      as [[l [Dl Cl]] Hk].
    pose proof (responseheadersStage_response env proxy req _ _ _ _ Hst) as Hresp.
    rewrite (runHandler_ext proxy _ _ _ (pipeline_afterResponseheaders env proxy req _)).
    destruct (forward_run_after proxy
                [KLog; KRes; KHook HResponse; KModifier DResponse] _
                (responseheadersStage env proxy req) (afterResponseheaders env proxy)
                _ _ proxyRes _ l Hst Dl Cl) as [e2 (-> & _ & He2 & _)].
    { apply block_afterResponseheaders; in_list. }
    simpl. rewrite !hookCalls_app, (Hdef _ _ He2), app_nil_r.
    rewrite (hookCalls_kinds _ HResponse evs Hk) by (simpl; intuition discriminate).
    simpl. unfold afterResponseheaders. rewrite traceOf_bind, hookCalls_app.
    match goal with |- (_ ++ hookCalls _ ?t <> [] <-> _) /\ _ =>
      assert (Hrest : hookCalls HResponse t = []) end.
    { destruct (snd (fst (readResponseBody env proxy proxyRes s))) as [b|x]; [|reflexivity].
      apply (hookCalls_kinds [KLog; KRes; KModifier DResponse]).
      - apply (block_sendResponse proxy [KLog; KRes; KModifier DResponse]
                 ltac:(in_list) ltac:(in_list) b ltac:(in_list)).
      - simpl. intuition discriminate. }
    rewrite Hrest, app_nil_r.
    apply (readResponseBody_calls env proxy Haddons proxyRes s buf r err Hrd Hresp).
Qed.

(** C1, counterexample.  A request body of 8 bytes against a threshold
    of 4 is streamed; the origin's body [ok] is within the threshold
    (read on its own it is buffered), yet it is not buffered and
    [Response] is invoked on no addon, although the flow is replied to
    the end. *)
Lemma C1_counterexample :
  let proxy := sampleProxy [Addon.BaseAddon] in
  let run := ServeHTTP sampleEnv proxy
               (sampleRequest "POST" originURL "12345678") sampleConn in
  Env.readerToBuffer sampleEnv (text "ok") (limit proxy)
  = (Some (list_byte_of_string "ok"), None, None)
  /\ hookCalls HRequestheaders (events run) = [0%nat]
  /\ hookCalls HResponseheaders (events run) = [0%nat]
  /\ hookCalls HResponse (events run) = []
  /\ hookCalls HResponse (events run) <> seq 0 (List.length (Proxy.Addons proxy))
  /\ option_map (fun f => option_map Response.Body (Flow.Response f)) (final run)
     = Some (Some None)
  /\ clientBody (events run) = list_byte_of_string "ok".
Proof. vm_compute. repeat split; discriminate. Qed.

(** C1, witness: a small request and a small response are buffered and
    both hooks fire; after a large request neither fires. *)
Lemma C1_witness :
  let proxy := sampleProxy [Addon.BaseAddon] in
  let req := sampleRequest "POST" originURL "hi" in
  let big := sampleRequest "POST" originURL "12345678" in
  isForward req = true
  /\ Proxy.Addons proxy <> []
  /\ hookCalls HRequest (events (ServeHTTP sampleEnv proxy req sampleConn)) <> []
  /\ hookCalls HResponse (events (ServeHTTP sampleEnv proxy req sampleConn)) = [0%nat]
  /\ hookCalls HResponse (events (ServeHTTP sampleEnv proxy big sampleConn)) = [].
Proof.
  intros proxy req big.
  assert (HF : isForward req = true) by reflexivity.
  assert (HF' : isForward big = true) by reflexivity.
  assert (Ha : Proxy.Addons proxy <> []) by discriminate.
  destruct (C1_hooks_follow_stream_flag sampleEnv proxy req sampleConn HF Ha)
    as (H1 & H2 & _).
  destruct (C1_hooks_follow_stream_flag sampleEnv proxy big sampleConn HF' Ha)
    as (_ & _ & H3).
  split; [exact HF|]. split; [exact Ha|]. split; [|split].
  - eapply H1; [vm_compute; reflexivity | vm_compute; reflexivity |].
    repeat split; discriminate.
  - eapply (H2 _ (HttpResponse.mk 200 [] false (text "ok")));
      [vm_compute; reflexivity | vm_compute; reflexivity
      | reflexivity | reflexivity | discriminate |].
    intros a f [<-|[]]. eexists. reflexivity.
  - eapply H3; [ | vm_compute; reflexivity | vm_compute; reflexivity
               | vm_compute; reflexivity | right; reflexivity].
    intros a [<-|[]] f Hf. repeat split; simpl; intros;
      match goal with H : Ok _ = Ok _ |- _ => inversion H; subst end; assumption.
Defined.

(* ================================================================== *)
(** * The order of the body sources in a reply                          *)
(* ================================================================== *)

Lemma pipeline_responseBodyStage env proxy req s :
  pipeline env proxy req s
  = bind (responseBodyStage env proxy req) (sendResponse proxy) s.
Proof.
  rewrite pipeline_afterResponseheaders. unfold responseBodyStage, afterResponseheaders.
  rewrite bind_assoc. reflexivity.
Qed.

(** Up to the [StreamResponseModifier] loop the handler has deferred
    [recover], [f.finish()] and [Close] calls only and, if it got that
    far, has written nothing to the client. *)
Lemma responseBodyStage_block env proxy req cc e r s :
  responseBodyStage env proxy req (start req cc) = (e, r, s) ->
  (exists l, defers s = l ++ [DFinish; DRecover] /\ Forall isClose l)
  /\ (isVal r = true -> writerOps e = []).
Proof.
  intros Hrun.
  unfold responseBodyStage, responseheadersStage, requestModifierStage in Hrun.
  rewrite !bind_assoc, bind_requestheadersStage in Hrun.
  pose (ks := [KLog; KRes; KHook HRequestheaders; KHook HRequest; KModifier DRequest;
               KInit; KDo; KHook HResponseheaders; KHook HResponse]).
  match type of Hrun with ?m _ = _ =>
    assert (Hs : sat (blockR true ks) m) end.
  { apply sat_bind; [auto with sat | apply block_triggerOrReply; in_list |]. intros _.
    apply sat_bind; [auto with sat | |].
    - apply sat_bind; [auto with sat | apply block_readRequestBody; in_list |].
      intros. apply block_modifiers; in_list.
    - intros reqBody.
      apply sat_bind; [auto with sat | |].
      + apply sat_bind; [auto with sat | apply block_forward; in_list |].
        intros proxyRes.
        apply sat_bind; [auto with sat | apply block_triggerResponseheaders; in_list |].
        intros _. apply sat_ret. auto with sat.
      + intros proxyRes. apply block_readResponseBody; in_list. }
  specialize (Hs (mkSt (counted (flow (start req cc)))
                       (DFinish :: DRecover :: defers (start req cc)))).
  unfold traceOf in Hs. rewrite Hrun in Hs. destruct Hs as [Hd [_ Hq]].
  split; [exact Hd|]. intros Hv. apply writerOps_quiet. apply Hq; [reflexivity | exact Hv].
Qed.

(** The [StreamResponseModifier] loop and the final [reply], when the
    loop ends with the reader [resBody'] and [f.Response] is
    [response]. *)
Lemma sendResponse_run proxy resBody s1 e2 resBody' s2 response :
  modifiers DResponse Addon.StreamResponseModifier 0 (Proxy.Addons proxy) resBody s1
  = (e2, Val resBody', s2) ->
  Flow.Response (flow s2) = Some response ->
  traceOf (sendResponse proxy resBody) s1 = e2 ++ replyTrace response resBody'
  /\ writerOps e2 = [].
Proof.
  intros Hm Hr. split.
  - unfold traceOf, sendResponse. rewrite (bind_Val _ _ _ _ _ _ _ _ Hm).
    unfold bind, derefResponse. rewrite Hr, reply_run. reflexivity.
  - pose proof (block_modifiers true [KModifier DResponse] DResponse
                  Addon.StreamResponseModifier (or_introl eq_refl)
                  (Proxy.Addons proxy) 0%nat resBody s1) as H.
    unfold traceOf in H. rewrite Hm in H. destruct H as [_ [_ Hq]].
    apply writerOps_quiet. apply Hq; reflexivity.
Qed.

(** C2, in the order the code has.  Whenever [reply] writes a response
    to the client, the body bytes the client receives are, in this
    order: what the reader passed to [reply] yields, then what
    [response.BodyReader] yields, then the buffered [response.Body]; a
    nil source contributes nothing.  And in the final reply of the
    forward pipeline the reader passed to [reply] is the one the
    [StreamResponseModifier] loop produced: when the handler reaches
    that loop with the reader [resBody] and the loop ends with the
    reader [resBody'] and [f.Response = response], the calls the
    handler makes on the client's response writer during the whole of
    [ServeHTTP] are those of [reply(response, resBody')], so the client
    receives what [resBody'] yields, then what [response.BodyReader]
    yields, then [response.Body]. *)
Theorem C2_reply_body_order :
  (forall (response : Response.t) (body : option Reader) (s : St),
     clientBody (traceOf (reply response body) s)
     = yield body ++ yield (Response.BodyReader response) ++ buffered response)
  /\
  (forall env proxy req cc e1 resBody s1 e2 resBody' s2 response,
     isForward req = true ->
     responseBodyStage env proxy req (start req cc) = (e1, Val resBody, s1) ->
     modifiers DResponse Addon.StreamResponseModifier 0 (Proxy.Addons proxy) resBody s1
     = (e2, Val resBody', s2) ->
     Flow.Response (flow s2) = Some response ->
     writerOps (events (ServeHTTP env proxy req cc))
     = writerOps (replyTrace response resBody')
     /\ clientBody (events (ServeHTTP env proxy req cc))
        = yield resBody' ++ yield (Response.BodyReader response) ++ buffered response).
Proof.
  split.
  - intros response body s.
    unfold traceOf. rewrite reply_run. simpl. apply clientBody_replyTrace.
  - intros env proxy req cc e1 resBody s1 e2 resBody' s2 response HF H1 H2 H3.
    assert (Hw : writerOps (events (ServeHTTP env proxy req cc))
                 = writerOps (replyTrace response resBody')).
    { rewrite (ServeHTTP_forward env proxy req cc HF).
      rewrite (runHandler_ext proxy (pipeline env proxy req)
                 (bind (responseBodyStage env proxy req) (sendResponse proxy))
                 (newFlow req cc)
                 (pipeline_responseBodyStage env proxy req (mkSt (newFlow req cc) []))).
      destruct (responseBodyStage_block env proxy req cc e1 (Val resBody) s1 H1)
        as [[l [Hd Hl]] Hq].
      destruct (forward_run_after proxy [KModifier DResponse; KRes; KLog] _
                  (responseBodyStage env proxy req) (sendResponse proxy)
                  (newFlow req cc) e1 resBody s1 l H1 Hd Hl)
        as (e3 & Hrun & _ & He3 & _).
      { apply block_sendResponse; in_list. }
      destruct (sendResponse_run proxy resBody s1 e2 resBody' s2 response H2 H3)
        as [Hs He2].
      rewrite Hrun. simpl. rewrite Hs, !writerOps_app.
      rewrite (Hq eq_refl), He2, (writerOps_deferred e3 He3). simpl.
      apply app_nil_r. }
    split; [exact Hw|].
    unfold clientBody at 1. rewrite Hw. apply clientBody_replyTrace.
Qed.

(** C2, witness: the origin's body [ok] is buffered, [Response]
    attaches a [BodyReader] yielding [B] and the
    [StreamResponseModifier] loop ends with a reader yielding [CHAIN]:
    the client receives [CHAIN], then [B], then [ok]. *)
Lemma C2_witness :
  let proxy := sampleProxy [chainAddon] in
  let req := sampleRequest "GET" originURL "hi" in
  let run := ServeHTTP sampleEnv proxy req sampleConn in
  isForward req = true
  /\ writerOps (events run)
     = [WriteHeader 200; Write (list_byte_of_string "CHAIN");
        Write (list_byte_of_string "B"); Write (list_byte_of_string "ok")]
  /\ clientBody (events run) = list_byte_of_string "CHAINBok".
Proof.
  intros proxy req run.
  assert (HF : isForward req = true) by reflexivity.
  pose (r1 := responseBodyStage sampleEnv proxy req (start req sampleConn)).
  pose (r2 := modifiers DResponse Addon.StreamResponseModifier 0 (Proxy.Addons proxy)
                None (snd r1)).
  pose (response := Response.mk 200 [] (Some (list_byte_of_string "ok"))
                      (Some (text "B")) false).
  assert (H1 : responseBodyStage sampleEnv proxy req (start req sampleConn)
               = (fst (fst r1), Val None, snd r1)) by (vm_compute; reflexivity).
  assert (H2 : modifiers DResponse Addon.StreamResponseModifier 0 (Proxy.Addons proxy)
                 None (snd r1)
               = (fst (fst r2), Val (Some (text "CHAIN")), snd r2))
    by (vm_compute; reflexivity).
  assert (H3 : Flow.Response (flow (snd r2)) = Some response) by (vm_compute; reflexivity).
  destruct (proj2 C2_reply_body_order sampleEnv proxy req sampleConn
              _ _ _ _ _ _ response HF H1 H2 H3) as [Hw Hc].
  unfold run. split; [exact HF|]. split.
  - rewrite Hw. vm_compute. reflexivity.
  - rewrite Hc. vm_compute. reflexivity.
Defined.

(** C2, counterexample.  A streamed flow whose origin body is [ok] and
    to whose response an addon attached a [BodyReader] yielding [B]:
    the modifier-chain reader is written first, so the client receives
    [okB] and not [Bok]. *)
Lemma C2_counterexample :
  let run := ServeHTTP sampleEnv (sampleProxy [splicerAddon])
               (sampleRequest "GET" originURL "hi") sampleConn in
  clientBody (events run) = list_byte_of_string "okB"
  /\ clientBody (events run) <> list_byte_of_string "Bok".
Proof. vm_compute. split; [reflexivity | discriminate]. Qed.

(* ================================================================== *)
(** * Requests addressed to the proxy itself                            *)
(* ================================================================== *)

Lemma accessProxyServer_all req addons : forall i,
  (forall a, In a addons -> exists ops, Addon.AccessProxyServer a req = Ok ops) ->
  snd (accessProxyServer req i addons) = None
  /\ accessCalls (fst (accessProxyServer req i addons)) = seq i (List.length addons)
  /\ writerOps (fst (accessProxyServer req i addons)) = flat_map (accessOps req) addons
  /\ Forall (kindIn [KAccess; KRes]) (fst (accessProxyServer req i addons)).
Proof.
  induction addons as [|a rest IH]; intros i Hok; simpl.
  - repeat split; constructor.
  - destruct (Hok a (or_introl eq_refl)) as [ops Ha].
    unfold accessOps at 1. rewrite Ha.
    destruct (IH (S i) (fun b Hb => Hok b (or_intror Hb))) as (H1 & H2 & H3 & H4).
    destruct (accessProxyServer req (S i) rest) as [e p]. simpl in *.
    split; [exact H1|]. split; [|split].
    + unfold accessCalls. rewrite flat_map_app.
      replace (flat_map _ (map EvRes ops)) with (@nil nat)
        by (clear; induction ops; simpl; auto).
      simpl. f_equal. exact H2.
    + unfold writerOps. rewrite flat_map_app.
      replace (flat_map _ (map EvRes ops)) with ops
        by (clear; induction ops; simpl; f_equal; auto).
      f_equal. exact H3.
    + constructor; [in_list|]. apply Forall_app; split; [|exact H4].
      clear. induction ops; constructor; [in_list | assumption].
Qed.

(** C6.  A request that is not a CONNECT and whose URL is not absolute
    or names no host is answered by the proxy itself.  With no addon
    registered the proxy writes status [400] and the fixed message.
    Otherwise [AccessProxyServer] of every registered addon (each addon
    implements the interface, [BaseAddon] with a no-op) is invoked, in
    registration order, and, when none of them panics, the calls on the
    response writer are exactly those the addons made.  No flow is
    created in either case. *)
Theorem C6_request_to_proxy_itself env proxy req cc :
  HttpRequest.Method req <> "CONNECT" ->
  URL.IsAbs (HttpRequest.URL req) = false
  \/ URL.Host (HttpRequest.URL req) = EmptyString ->
  (Proxy.Addons proxy = [] ->
     events (ServeHTTP env proxy req cc)
     = [EvRes (WriteHeader 400); EvRes (Write accessDenied)]
     /\ escaped (ServeHTTP env proxy req cc) = None)
  /\ (Proxy.Addons proxy <> [] ->
      (forall a, In a (Proxy.Addons proxy) ->
                 exists ops, Addon.AccessProxyServer a req = Ok ops) ->
      accessCalls (events (ServeHTTP env proxy req cc))
      = seq 0 (List.length (Proxy.Addons proxy))
      /\ writerOps (events (ServeHTTP env proxy req cc))
         = flat_map (accessOps req) (Proxy.Addons proxy)
      /\ Forall (kindIn [KAccess; KRes]) (events (ServeHTTP env proxy req cc))
      /\ escaped (ServeHTTP env proxy req cc) = None)
  /\ final (ServeHTTP env proxy req cc) = None.
Proof.
  intros Hm Hu. unfold ServeHTTP.
  apply String.eqb_neq in Hm. rewrite Hm.
  assert (Hb : negb (URL.IsAbs (HttpRequest.URL req))
               || (URL.Host (HttpRequest.URL req) =? EmptyString)%string = true).
  { destruct Hu as [Hu|Hu]; [rewrite Hu; reflexivity|].
    rewrite Hu. simpl. apply orb_true_r. }
  rewrite Hb. split; [|split].
  - intros Hnil. rewrite Hnil. simpl. split; reflexivity.
  - intros Hne Hok.
    destruct (Proxy.Addons proxy) as [|a rest] eqn:Ea; [contradiction|].
    change ((List.length (a :: rest) =? 0)%nat) with false. cbv iota.
    destruct (accessProxyServer_all req (a :: rest) 0 Hok) as (H1 & H2 & H3 & H4).
    destruct (accessProxyServer req 0 (a :: rest)) as [e p]. simpl in *.
    repeat split; assumption.
  - destruct (List.length (Proxy.Addons proxy) =? 0)%nat; [reflexivity|].
    destruct (accessProxyServer req 0 (Proxy.Addons proxy)); reflexivity.
Qed.

(** C6, witness: [GET /status] sent to the proxy, with the status page
    addon and [BaseAddon] registered, and with no addon. *)
Lemma C6_witness :
  let req := sampleRequest "GET" (URL.mk EmptyString EmptyString "/status") EmptyString in
  HttpRequest.Method req <> "CONNECT"
  /\ URL.IsAbs (HttpRequest.URL req) = false
  /\ writerOps (events (ServeHTTP sampleEnv
                          (sampleProxy [statusPageAddon; Addon.BaseAddon]) req sampleConn))
     = [WriteHeader 200; Write (list_byte_of_string "up")]
  /\ events (ServeHTTP sampleEnv (sampleProxy []) req sampleConn)
     = [EvRes (WriteHeader 400); EvRes (Write accessDenied)].
Proof.
  intros req.
  assert (Hm : HttpRequest.Method req <> "CONNECT") by discriminate.
  assert (Hu : URL.IsAbs (HttpRequest.URL req) = false
               \/ URL.Host (HttpRequest.URL req) = EmptyString)
    by (left; reflexivity).
  split; [exact Hm|]. split; [reflexivity|]. split.
  - destruct (C6_request_to_proxy_itself sampleEnv
                (sampleProxy [statusPageAddon; Addon.BaseAddon]) req sampleConn Hm Hu)
      as (_ & H & _).
    destruct H as (_ & H & _).
    + discriminate.
    + intros a [<-|[<-|[]]]; eexists; reflexivity.
    + exact H.
  - destruct (C6_request_to_proxy_itself sampleEnv (sampleProxy []) req sampleConn Hm Hu)
      as (H & _).
    exact (proj1 (H eq_refl)).
Defined.

(* ================================================================== *)
(** * The upstream resolver                                             *)
(* ================================================================== *)

(** C7.  [getUpstreamProxyUrl] resolves the upstream proxy by the first
    of: the callback set with [SetUpstreamProxy], whatever it returns;
    else the static [Opts.Upstream] when it is not empty, parsed as a
    URL; else the proxy the environment names for the URL with scheme
    [https] and the request's host.  When the result is nil (no
    upstream), [getUpstreamConn] dials the request's host directly, and
    otherwise through the resolved proxy. *)
Theorem C7_upstream_precedence env proxy req :
  (forall fn, getUpstreamProxyUrl env (Proxy.SetUpstreamProxy proxy fn) req = fn req)
  /\ (forall fn, Proxy.upstreamProxy proxy = Some fn ->
                 getUpstreamProxyUrl env proxy req = fn req)
  /\ (Proxy.upstreamProxy proxy = None ->
      Options.Upstream (Proxy.Opts proxy) <> EmptyString ->
      getUpstreamProxyUrl env proxy req
      = Env.Parse env (Options.Upstream (Proxy.Opts proxy)))
  /\ (Proxy.upstreamProxy proxy = None ->
      Options.Upstream (Proxy.Opts proxy) = EmptyString ->
      getUpstreamProxyUrl env proxy req
      = Env.ProxyFromEnvironment env
          (URL.mk "https" (HttpRequest.Host req) EmptyString))
  /\ (getUpstreamProxyUrl env proxy req = (None, None) ->
      getUpstreamConn env proxy req
      = ([EvDial (DialDirect (HttpRequest.Host req))],
         Env.DialContext env (HttpRequest.Host req)))
  /\ (forall u, getUpstreamProxyUrl env proxy req = (Some u, None) ->
      getUpstreamConn env proxy req
      = ([EvDial (DialProxy u (HttpRequest.Host req))],
         Env.getProxyConn env u (HttpRequest.Host req))).
Proof.
  unfold getUpstreamConn, getUpstreamProxyUrl. repeat split.
  - intros fn H. rewrite H. reflexivity.
  - intros H Hne. rewrite H.
    destruct (Options.Upstream (Proxy.Opts proxy)); [contradiction|reflexivity].
  - intros H He. rewrite H, He. reflexivity.
  - intros H. rewrite H. reflexivity.
  - intros u H. rewrite H. reflexivity.
Qed.

(** C7, witness: the callback wins over the static upstream, the static
    upstream over the environment, and the environment is asked last;
    with none of them the origin is dialled directly. *)
Lemma C7_witness :
  let req := connectRequest "origin:443" in
  getUpstreamProxyUrl proxiedEnv
    (Proxy.SetUpstreamProxy (upstreamProxyOf []) socksCallback) req
  = (Some (URL.mk "socks" "127.0.0.1:8889" EmptyString), None)
  /\ getUpstreamProxyUrl proxiedEnv (upstreamProxyOf []) req
     = (Some (URL.mk "http" "upstream:3128" EmptyString), None)
  /\ getUpstreamProxyUrl proxiedEnv (sampleProxy []) req
     = (Some (URL.mk "http" "env-proxy" EmptyString), None)
  /\ getUpstreamConn sampleEnv (sampleProxy []) req
     = ([EvDial (DialDirect "origin:443")], None).
Proof.
  intros req. split; [|split; [|split]].
  - exact (proj1 (C7_upstream_precedence proxiedEnv (upstreamProxyOf []) req) socksCallback).
  - destruct (C7_upstream_precedence proxiedEnv (upstreamProxyOf []) req)
      as (_ & _ & H & _).
    exact (H eq_refl ltac:(discriminate)).
  - destruct (C7_upstream_precedence proxiedEnv (sampleProxy []) req)
      as (_ & _ & _ & H & _).
    exact (H eq_refl eq_refl).
  - destruct (C7_upstream_precedence sampleEnv (sampleProxy []) req)
      as (_ & _ & _ & _ & H & _).
    exact (H eq_refl).
Defined.

(* ================================================================== *)
(** * Panics of addon callbacks                                         *)
(* ================================================================== *)

(** In the forward pipeline no panic leaves the handler: the deferred
    [recover] ends it, after [f.finish()]. *)
Lemma forward_panic_recovered env proxy req cc :
  isForward req = true ->
  escaped (ServeHTTP env proxy req cc) = None
  /\ In EvFinish (events (ServeHTTP env proxy req cc)).
Proof.
  intros HF. rewrite (ServeHTTP_forward env proxy req cc HF).
  change (pipeline env proxy req)
    with (bind (requestheadersStage proxy) (fun _ => afterRequestheaders env proxy req)).
  destruct (requestheadersStage proxy (mkSt (newFlow req cc) [])) as [[e1 r1] s1] eqn:E1.
  pose proof E1 as E1'. rewrite requestheadersStage_run in E1'.
  apply triggerOrReply_cases in E1'. destruct E1' as [D1 _]. simpl in D1.
  destruct r1 as [u|x].
  - destruct (forward_run_after proxy laterKinds _ (requestheadersStage proxy)
                (fun _ => afterRequestheaders env proxy req) _ _ u _ [] E1 D1)
      as [e2 (-> & _ & _ & Hf)]; [constructor | |].
    { apply block_afterRequestheaders; in_list. }
    simpl. split; [reflexivity|].
    apply in_or_app. right. apply in_or_app. right. exact Hf.
  - destruct (forward_run_stop proxy _ (requestheadersStage proxy)
                (fun _ => afterRequestheaders env proxy req) _ _ _ _ [] E1 D1)
      as [e2 (-> & _ & Hf)]; [constructor|].
    simpl. split; [reflexivity|]. apply in_or_app. right. exact Hf.
Qed.

(** C9, at its failing input.  An addon whose [Requestheaders] panics:
    on a forward request the panic is recovered and logged; on a CONNECT
    request it leaves [ServeHTTP], and nothing is logged ([handleConnect]
    defers no [recover], and the one of [ServeHTTP] is deferred after
    the CONNECT branch has returned). *)
Lemma C9_connect_panic_escapes :
  let forwardRun := ServeHTTP sampleEnv (sampleProxy [panickyAddon])
                      (sampleRequest "GET" originURL "hi") sampleConn in
  let connectRun := ServeHTTP sampleEnv (sampleProxy [panickyAddon])
                      (connectRequest "origin:443") sampleConn in
  (escaped forwardRun = None
   /\ In (EvLog LWarn "Recovered: boom") (events forwardRun))
  /\ (escaped connectRun = Some "boom"
      /\ ~ In (EvLog LWarn "Recovered: boom") (events connectRun)
      /\ Forall (fun e => kind e <> KLog) (events connectRun)).
Proof.
  vm_compute. repeat split.
  - right. right. left. reflexivity.
  - intros [H|[H|[]]]; discriminate.
  - repeat constructor; discriminate.
Qed.

(* ================================================================== *)
(** * CONNECT                                                           *)
(* ================================================================== *)




(** With an intercept rule that declines, and no upstream, the tunnel is
    dialled to the origin directly; the addon's response is ignored all
    the same. *)
Example connect_transpond :
  let proxy := Proxy.SetShouldInterceptRule (sampleProxy [teapotAddon]) (fun _ => false) in
  let run := ServeHTTP sampleEnv proxy (connectRequest "origin:443") sampleConn in
  hookCalls HRequestheaders (events run) = [0%nat]
  /\ In (EvDial (DialDirect "origin:443")) (events run)
  /\ In (EvConnWrite connectionEstablished) (events run)
  /\ hookCalls HResponseheaders (events run) = [0%nat]
  /\ hookCalls HResponse (events run) = [0%nat]
  /\ writerOps (events run) = []
  /\ escaped run = None.
Proof.
  vm_compute. repeat split.
  - right. left. reflexivity.
  - do 3 right. left. reflexivity.
Qed.
